(** * The request pipeline of the [client] package

    A shallow embedding of the HTTP client of the repository: the
    configuration builder ([buildConfig] and the [With*] options), the
    transport chain ([NewTransport], [buildTransport], the header and logging
    links) and the request executor ([do], [resolveURL], [addQueryParams]).

    The functions of Go's standard library that the client calls
    ([strings], [net/url], [net/textproto], [net/http]) are embedded first,
    following their Go sources, as executable functions over [string]. *)

From Stdlib Require Import ZArith NArith Ascii String List Permutation.
From stdpp Require Import gmap strings list fin_maps sorting.

Local Open Scope string_scope.
Local Open Scope Z_scope.

(** ** Bytes *)

Definition ord (c : ascii) : N := N_of_ascii c.

Definition between (lo hi c : ascii) : bool :=
  ((ord lo <=? ord c) && (ord c <=? ord hi))%N.

Definition is_lower (c : ascii) : bool := between "a" "z" c.
Definition is_upper (c : ascii) : bool := between "A" "Z" c.
Definition is_digit (c : ascii) : bool := between "0" "9" c.
Definition is_alnum (c : ascii) : bool := is_lower c || is_upper c || is_digit c.

(** [c - toLower] and [c + toLower] with [toLower = 'a' - 'A']. *)
Definition to_upper (c : ascii) : ascii :=
  if is_lower c then ascii_of_N (ord c - 32) else c.
Definition to_lower (c : ascii) : ascii :=
  if is_upper c then ascii_of_N (ord c + 32) else c.

(** The double quote, byte 34. *)
Definition dquote : ascii := ascii_of_N 34.

Definition byte_in (c : ascii) (set : string) : bool :=
  existsb (Ascii.eqb c) (list_ascii_of_string set).

(** ** Package [strings] *)

Fixpoint str_take (n : nat) (s : string) : string :=
  match n, s with
  | S n', String c r => String c (str_take n' r)
  | _, _ => ""
  end.

Fixpoint str_drop (n : nat) (s : string) : string :=
  match n, s with
  | S n', String _ r => str_drop n' r
  | _, _ => s
  end.

(** [strings.Cut(s, sep)] for a one-byte separator: the text before the first
    [sep], the text after it, and whether [sep] was found. *)
Fixpoint strings_Cut (s : string) (sep : ascii) : string * string * bool :=
  match s with
  | "" => ("", "", false)
  | String c r =>
      if Ascii.eqb c sep then ("", r, true)
      else let '(before, after, found) := strings_Cut r sep in
           (String c before, after, found)
  end.

Definition strings_HasPrefix (s pre : string) : bool := String.prefix pre s.

Definition strings_HasSuffix (s suf : string) : bool :=
  (String.length suf <=? String.length s)%nat
  && String.eqb (str_drop (String.length s - String.length suf) s) suf.

(** [strings.Index]; [None] stands for Go's [-1]. *)
Fixpoint strings_Index (s sub : string) : option nat :=
  if String.prefix sub s then Some 0%nat
  else match s with
       | "" => None
       | String _ r => S <$> strings_Index r sub
       end.

(** [strings.LastIndex] and [strings.LastIndexByte] for one byte. *)
Fixpoint strings_LastIndexByte (s : string) (c : ascii) : option nat :=
  match s with
  | "" => None
  | String d r =>
      match strings_LastIndexByte r c with
      | Some i => Some (S i)
      | None => if Ascii.eqb d c then Some 0%nat else None
      end
  end.

Definition strings_ContainsByte (s : string) (c : ascii) : bool :=
  existsb (Ascii.eqb c) (list_ascii_of_string s).

Fixpoint strings_CountByte (s : string) (c : ascii) : nat :=
  match s with
  | "" => 0%nat
  | String d r => ((if Ascii.eqb d c then 1 else 0) + strings_CountByte r c)%nat
  end.

(** [strings.TrimRight(s, cutset)]. *)
Fixpoint strings_TrimRight (s cutset : string) : string :=
  match s with
  | "" => ""
  | String c r =>
      match strings_TrimRight r cutset with
      | "" => if byte_in c cutset then "" else String c ""
      | r' => String c r'
      end
  end.

(** [strings.TrimSuffix]. *)
Definition strings_TrimSuffix (s suf : string) : string :=
  if strings_HasSuffix s suf
  then str_take (String.length s - String.length suf) s else s.

Fixpoint str_map (f : ascii -> ascii) (s : string) : string :=
  match s with
  | "" => ""
  | String c r => String (f c) (str_map f r)
  end.

(** [strings.ToLower] on ASCII text. *)
Definition strings_ToLower (s : string) : string := str_map to_lower s.

Fixpoint str_forallb (p : ascii -> bool) (s : string) : bool :=
  match s with
  | "" => true
  | String c r => p c && str_forallb p r
  end.

(** [strings.Split(s, sep)] for a one-byte separator: the successive results
    of [strings.Cut]. *)
Fixpoint strings_Split (s : string) (sep : ascii) : list string :=
  match s with
  | "" => [""]
  | String c r =>
      if Ascii.eqb c sep then "" :: strings_Split r sep
      else match strings_Split r sep with
           | seg :: segs => String c seg :: segs
           | [] => [String c ""]
           end
  end.

(** ** Package [net/url]: escaping *)

Inductive encoding :=
| encodePath | encodePathSegment | encodeHost | encodeZone
| encodeUserPassword | encodeQueryComponent | encodeFragment.

Definition encoding_eqb (a b : encoding) : bool :=
  match a, b with
  | encodePath, encodePath | encodePathSegment, encodePathSegment
  | encodeHost, encodeHost | encodeZone, encodeZone
  | encodeUserPassword, encodeUserPassword
  | encodeQueryComponent, encodeQueryComponent
  | encodeFragment, encodeFragment => true
  | _, _ => false
  end.

(** The errors of [net/url]: [EscapeError], [InvalidHostError] and the
    [errors.New]/[fmt.Errorf] values of [parse]. *)
Inductive url_err :=
| EscapeError (s : string)
| InvalidHostError (s : string)
| ErrInvalidControlCharacter
| ErrMissingProtocolScheme
| ErrFirstPathSegmentColon
| ErrMissingBracket
| ErrInvalidPort (colonPort : string)
| ErrInvalidUserinfo.

Definition ishex (c : ascii) : bool :=
  is_digit c || between "a" "f" c || between "A" "F" c.

Definition unhex (c : ascii) : N :=
  if is_digit c then (ord c - ord "0")%N
  else if between "a" "f" c then (ord c - ord "a" + 10)%N
  else if between "A" "F" c then (ord c - ord "A" + 10)%N
  else 0%N.

Definition upperhex (n : N) : ascii :=
  match String.get (N.to_nat n) "0123456789ABCDEF" with
  | Some c => c
  | None => "0"%char
  end.

(** [shouldEscape(c, mode)]: whether byte [c] must be percent-encoded when it
    appears in the part of a URL that [mode] names. *)
Definition shouldEscape (c : ascii) (mode : encoding) : bool :=
  if is_alnum c then false
  else if (encoding_eqb mode encodeHost || encoding_eqb mode encodeZone)
          && (byte_in c "!$&'()*+,;=:[]<>" || Ascii.eqb c dquote)
  then false
  else if byte_in c "-_.~" then false
  else if byte_in c "$&+,/:;=?@" then
    match mode with
    | encodePath => Ascii.eqb c "?"
    | encodePathSegment => byte_in c "/;,?"
    | encodeUserPassword => byte_in c "@/?:"
    | encodeQueryComponent => true
    | encodeFragment => false
    | encodeHost | encodeZone => true
    end
  else if encoding_eqb mode encodeFragment && byte_in c "!()*" then false
  else true.

Definition hex_byte (h1 h2 : ascii) : ascii :=
  ascii_of_N (N.lor (N.shiftl (unhex h1) 4) (unhex h2)).

(** First pass of [unescape]: the first malformed or forbidden byte, if any. *)
Fixpoint unescape_check (s : string) (mode : encoding) : option url_err :=
  match s with
  | "" => None
  | String c r =>
      if Ascii.eqb c "%" then
        match r with
        | String h1 (String h2 r') =>
            let esc := String c (String h1 (String h2 "")) in
            if negb (ishex h1 && ishex h2) then Some (EscapeError esc)
            else if encoding_eqb mode encodeHost && (unhex h1 <? 8)%N
                    && negb (String.eqb esc "%25")
            then Some (EscapeError esc)
            else if encoding_eqb mode encodeZone
                    && negb (String.eqb esc "%25")
                    && negb (Ascii.eqb (hex_byte h1 h2) " ")
                    && shouldEscape (hex_byte h1 h2) encodeHost
            then Some (EscapeError esc)
            else unescape_check r' mode
        | _ => Some (EscapeError (str_take 3 s))
        end
      else if (encoding_eqb mode encodeHost || encoding_eqb mode encodeZone)
              && (ord c <? 128)%N && shouldEscape c encodeHost
      then Some (InvalidHostError (String c ""))
      else unescape_check r mode
  end.

(** Second pass of [unescape]: decode [%XX], and [+] in a query component. *)
Fixpoint unescape_decode (s : string) (mode : encoding) : string :=
  match s with
  | "" => ""
  | String c r =>
      if Ascii.eqb c "%" then
        match r with
        | String h1 (String h2 r') =>
            String (hex_byte h1 h2) (unescape_decode r' mode)
        | _ => String c (unescape_decode r mode)
        end
      else if Ascii.eqb c "+" && encoding_eqb mode encodeQueryComponent
      then String " " (unescape_decode r mode)
      else String c (unescape_decode r mode)
  end.

Definition unescape (s : string) (mode : encoding) : string + url_err :=
  match unescape_check s mode with
  | Some e => inr e
  | None => inl (unescape_decode s mode)
  end.

Definition escape_byte (c : ascii) (mode : encoding) : string :=
  if Ascii.eqb c " " && encoding_eqb mode encodeQueryComponent then "+"
  else if shouldEscape c mode then
    String "%" (String (upperhex (N.shiftr (ord c) 4))
                       (String (upperhex (N.land (ord c) 15)) ""))
  else String c "".

Fixpoint escape (s : string) (mode : encoding) : string :=
  match s with
  | "" => ""
  | String c r => escape_byte c mode +:+ escape r mode
  end.

Definition QueryEscape (s : string) : string := escape s encodeQueryComponent.
Definition QueryUnescape (s : string) : string + url_err :=
  unescape s encodeQueryComponent.

(** [validEncoded(s, mode)]. *)
Definition validEncoded (s : string) (mode : encoding) : bool :=
  str_forallb (fun c => byte_in c "!$&'()*+,;=:@[]%" || negb (shouldEscape c mode)) s.

(** ** Package [net/url]: the [URL] type *)

Record Userinfo := mkUserinfo {
  username : string;
  password : string;
  passwordSet : bool
}.

Record URL := mkURL {
  Scheme : string;
  Opaque : string;
  User : option Userinfo;
  Host : string;
  Path : string;
  RawPath : string;
  OmitHost : bool;
  ForceQuery : bool;
  RawQuery : string;
  Fragment : string;
  RawFragment : string
}.

Definition empty_URL : URL := mkURL "" "" None "" "" "" false false "" "" "".

Definition Userinfo_String (u : option Userinfo) : string :=
  match u with
  | None => ""
  | Some ui =>
      escape (username ui) encodeUserPassword
      +:+ (if passwordSet ui
           then ":" +:+ escape (password ui) encodeUserPassword else "")
  end.

(** [u.setPath(p)]: [Path] is the decoded form, [RawPath] is kept only when
    it differs from the default encoding of [Path]. *)
Definition setPath (u : URL) (p : string) : URL + url_err :=
  match unescape p encodePath with
  | inr e => inr e
  | inl path =>
      inl (mkURL (Scheme u) (Opaque u) (User u) (Host u) path
                 (if String.eqb p (escape path encodePath) then "" else p)
                 (OmitHost u) (ForceQuery u) (RawQuery u)
                 (Fragment u) (RawFragment u))
  end.

Definition setFragment (u : URL) (f : string) : URL + url_err :=
  match unescape f encodeFragment with
  | inr e => inr e
  | inl frag =>
      inl (mkURL (Scheme u) (Opaque u) (User u) (Host u) (Path u) (RawPath u)
                 (OmitHost u) (ForceQuery u) (RawQuery u) frag
                 (if String.eqb f (escape frag encodeFragment) then "" else f))
  end.

Definition EscapedPath (u : URL) : string :=
  if negb (String.eqb (RawPath u) "") && validEncoded (RawPath u) encodePath
     && match unescape (RawPath u) encodePath with
        | inl p => String.eqb p (Path u)
        | inr _ => false
        end
  then RawPath u
  else if String.eqb (Path u) "*" then "*"
  else escape (Path u) encodePath.

Definition EscapedFragment (u : URL) : string :=
  if negb (String.eqb (RawFragment u) "")
     && validEncoded (RawFragment u) encodeFragment
     && match unescape (RawFragment u) encodeFragment with
        | inl f => String.eqb f (Fragment u)
        | inr _ => false
        end
  then RawFragment u
  else escape (Fragment u) encodeFragment.

Definition IsAbs (u : URL) : bool := negb (String.eqb (Scheme u) "").

(** ** Package [net/url]: parsing *)

Definition stringContainsCTLByte (s : string) : bool :=
  negb (str_forallb (fun c => negb ((ord c <? 32)%N || (ord c =? 127)%N)) s).

(** [getScheme(rawURL)]: [rest] is [rawURL[i:]]; the result is the scheme and
    the text after its colon, or an empty scheme and the whole text. *)
Fixpoint getScheme_from (rawURL rest : string) (i : nat)
  : string * string + url_err :=
  match rest with
  | "" => inl ("", rawURL)
  | String c r =>
      if is_lower c || is_upper c then getScheme_from rawURL r (S i)
      else if is_digit c || byte_in c "+-." then
        match i with
        | O => inl ("", rawURL)
        | _ => getScheme_from rawURL r (S i)
        end
      else if Ascii.eqb c ":" then
        match i with
        | O => inr ErrMissingProtocolScheme
        | _ => inl (str_take i rawURL, r)
        end
      else inl ("", rawURL)
  end.

Definition getScheme (rawURL : string) : string * string + url_err :=
  getScheme_from rawURL rawURL 0.

Definition validOptionalPort (port : string) : bool :=
  match port with
  | "" => true
  | String c r => Ascii.eqb c ":" && str_forallb is_digit r
  end.

Definition validUserinfo (s : string) : bool :=
  str_forallb (fun c => is_alnum c || byte_in c "-._:~!$&'()*+,;=%@") s.

(** [parseHost(host)]. *)
Definition parseHost (host : string) : string + url_err :=
  let plain := unescape host encodeHost in
  if strings_HasPrefix host "[" then
    match strings_LastIndexByte host "]" with
    | None => inr ErrMissingBracket
    | Some i =>
        let colonPort := str_drop (S i) host in
        if negb (validOptionalPort colonPort) then inr (ErrInvalidPort colonPort)
        else
          match strings_Index (str_take i host) "%25" with
          | Some zone =>
              match unescape (str_take zone host) encodeHost with
              | inr e => inr e
              | inl host1 =>
                  match unescape (str_drop zone (str_take i host)) encodeZone with
                  | inr e => inr e
                  | inl host2 =>
                      match unescape (str_drop i host) encodeHost with
                      | inr e => inr e
                      | inl host3 => inl (host1 +:+ host2 +:+ host3)
                      end
                  end
              end
          | None => plain
          end
    end
  else
    match strings_LastIndexByte host ":" with
    | Some i =>
        let colonPort := str_drop i host in
        if negb (validOptionalPort colonPort) then inr (ErrInvalidPort colonPort)
        else plain
    | None => plain
    end.

(** [parseAuthority(authority)]: the user information and the host. *)
Definition parseAuthority (authority : string)
  : option Userinfo * string + url_err :=
  let i := strings_LastIndexByte authority "@" in
  match parseHost (match i with
                   | None => authority
                   | Some i => str_drop (S i) authority
                   end) with
  | inr e => inr e
  | inl host =>
      match i with
      | None => inl (None, host)
      | Some i =>
          let userinfo := str_take i authority in
          if negb (validUserinfo userinfo) then inr ErrInvalidUserinfo
          else if negb (strings_ContainsByte userinfo ":") then
            match unescape userinfo encodeUserPassword with
            | inr e => inr e
            | inl name => inl (Some (mkUserinfo name "" false), host)
            end
          else
            let '(name, pass, _) := strings_Cut userinfo ":" in
            match unescape name encodeUserPassword with
            | inr e => inr e
            | inl name =>
                match unescape pass encodeUserPassword with
                | inr e => inr e
                | inl pass => inl (Some (mkUserinfo name pass true), host)
                end
            end
      end
  end.

(** [parse(rawURL, viaRequest)] with [viaRequest = false], the only way
    [url.Parse] calls it. *)
Definition parse (rawURL : string) : URL + url_err :=
  if stringContainsCTLByte rawURL then inr ErrInvalidControlCharacter
  else if String.eqb rawURL "*" then
    inl (mkURL "" "" None "" "*" "" false false "" "" "")
  else
    match getScheme rawURL with
    | inr e => inr e
    | inl (scheme, rest) =>
        let scheme := strings_ToLower scheme in
        let '(rest, forceQuery, rawQuery) :=
          if strings_HasSuffix rest "?"
             && (strings_CountByte rest "?" =? 1)%nat
          then (str_take (String.length rest - 1) rest, true, "")
          else let '(before, after, _) := strings_Cut rest "?" in
               (before, false, after) in
        let opaque := negb (strings_HasPrefix rest "/")
                      && negb (String.eqb scheme "") in
        let colon :=
          negb (strings_HasPrefix rest "/") && String.eqb scheme ""
          && strings_ContainsByte (fst (fst (strings_Cut rest "/"))) ":" in
        if opaque then
          inl (mkURL scheme rest None "" "" "" false forceQuery rawQuery "" "")
        else if colon then inr ErrFirstPathSegmentColon
        else if (negb (String.eqb scheme "")
                 || negb (strings_HasPrefix rest "///"))
                && strings_HasPrefix rest "//"
        then
          let authority := str_drop 2 rest in
          let '(authority, rest) :=
            match strings_Index authority "/" with
            | Some i => (str_take i authority, str_drop i authority)
            | None => (authority, "")
            end in
          match parseAuthority authority with
          | inr e => inr e
          | inl (user, host) =>
              setPath (mkURL scheme "" user host "" "" false forceQuery
                             rawQuery "" "") rest
          end
        else
          setPath (mkURL scheme "" None "" "" ""
                         (negb (String.eqb scheme "")
                          && strings_HasPrefix rest "/")
                         forceQuery rawQuery "" "") rest
    end.

(** An [error] of [net/url]: [&url.Error{Op, URL, Err}]. *)
Record url_Error := mk_url_Error {
  ue_Op : string;
  ue_URL : string;
  ue_Err : url_err
}.

(** [url.Parse(rawURL)]. *)
Definition url_Parse (rawURL : string) : URL + url_Error :=
  let '(u, frag, _) := strings_Cut rawURL "#" in
  match parse u with
  | inr e => inr (mk_url_Error "parse" u e)
  | inl url =>
      if String.eqb frag "" then inl url
      else match setFragment url frag with
           | inr e => inr (mk_url_Error "parse" rawURL e)
           | inl url => inl url
           end
  end.

(** [u.String()]. *)
Definition URL_String (u : URL) : string :=
  let scheme := if String.eqb (Scheme u) "" then "" else Scheme u +:+ ":" in
  let body :=
    if negb (String.eqb (Opaque u) "") then scheme +:+ Opaque u
    else
      let has_user := match User u with Some _ => true | None => false end in
      let authority :=
        if negb (String.eqb (Scheme u) "") || negb (String.eqb (Host u) "")
           || has_user
        then
          if OmitHost u && String.eqb (Host u) "" && negb has_user then ""
          else
            (if negb (String.eqb (Host u) "") || negb (String.eqb (Path u) "")
                || has_user then "//" else "")
            +:+ (if has_user then Userinfo_String (User u) +:+ "@" else "")
            +:+ (if String.eqb (Host u) "" then ""
                 else escape (Host u) encodeHost)
        else "" in
      let path := EscapedPath u in
      let buf := scheme +:+ authority in
      let buf :=
        if negb (String.eqb path "") && negb (strings_HasPrefix path "/")
           && negb (String.eqb (Host u) "")
        then buf +:+ "/" else buf in
      let buf :=
        if String.eqb buf ""
           && strings_ContainsByte (fst (fst (strings_Cut path "/"))) ":"
        then buf +:+ "./" else buf in
      buf +:+ path in
  body
  +:+ (if ForceQuery u || negb (String.eqb (RawQuery u) "")
       then "?" +:+ RawQuery u else "")
  +:+ (if String.eqb (Fragment u) "" then "" else "#" +:+ EscapedFragment u).

(** ** Package [net/url]: reference resolution *)

(** One turn of the loop of [resolvePath] on the path element [elem]; the
    state is the text written so far ([dst], which starts with a slash) and
    the flag [first]. *)
Definition resolvePath_step (st : string * bool) (elem : string)
  : string * bool :=
  let '(dst, first) := st in
  if String.eqb elem "." then (dst, false)
  else if String.eqb elem ".." then
    let str := str_drop 1 dst in
    match strings_LastIndexByte str "/" with
    | None => ("/", true)
    | Some index => ("/" +:+ str_take index str, first)
    end
  else ((if first then dst else dst +:+ "/") +:+ elem, false).

(** [resolvePath(base, ref)]: the loop takes the elements of [full] one
    [strings.Cut] at a time, which are the elements of [strings.Split]. *)
Definition resolvePath (base ref : string) : string :=
  let full :=
    match ref with
    | "" => base
    | String c _ =>
        if Ascii.eqb c "/" then ref
        else match strings_LastIndexByte base "/" with
             | Some i => str_take (S i) base +:+ ref
             | None => ref
             end
    end in
  if String.eqb full "" then ""
  else
    let elems := strings_Split full "/" in
    let '(dst, _) := fold_left resolvePath_step elems ("/", true) in
    let elem := List.last elems "" in
    let r := if String.eqb elem "." || String.eqb elem ".."
             then dst +:+ "/" else dst in
    match r with
    | String _ (String c _) => if Ascii.eqb c "/" then str_drop 1 r else r
    | _ => r
    end.

(** [setPath] with the error dropped, as [ResolveReference] calls it. *)
Definition setPath_ignore (u : URL) (p : string) : URL :=
  match setPath u p with
  | inl u' => u'
  | inr _ => u
  end.

(** [u.ResolveReference(ref)], RFC 3986 section 5.2. *)
Definition ResolveReference (u ref : URL) : URL :=
  let scheme := if String.eqb (Scheme ref) "" then Scheme u else Scheme ref in
  let url := mkURL scheme (Opaque ref) (User ref) (Host ref) (Path ref)
                   (RawPath ref) (OmitHost ref) (ForceQuery ref)
                   (RawQuery ref) (Fragment ref) (RawFragment ref) in
  if negb (String.eqb (Scheme ref) "") || negb (String.eqb (Host ref) "")
     || match User ref with Some _ => true | None => false end
  then setPath_ignore url (resolvePath (EscapedPath ref) "")
  else if negb (String.eqb (Opaque ref) "") then
    mkURL scheme (Opaque ref) None "" "" (RawPath ref) (OmitHost ref)
          (ForceQuery ref) (RawQuery ref) (Fragment ref) (RawFragment ref)
  else
    let inherit := String.eqb (Path ref) "" && negb (ForceQuery ref)
                   && String.eqb (RawQuery ref) "" in
    let rawQuery := if inherit then RawQuery u else RawQuery ref in
    let keep_frag := inherit && String.eqb (Fragment ref) "" in
    let fragment := if keep_frag then Fragment u else Fragment ref in
    let rawFragment := if keep_frag then RawFragment u else RawFragment ref in
    if String.eqb (Path ref) "" && negb (String.eqb (Opaque u) "") then
      mkURL scheme (Opaque u) None "" "" (RawPath ref) (OmitHost ref)
            (ForceQuery ref) rawQuery fragment rawFragment
    else
      setPath_ignore
        (mkURL scheme (Opaque ref) (User u) (Host u) (Path ref) (RawPath ref)
               (OmitHost ref) (ForceQuery ref) rawQuery fragment rawFragment)
        (resolvePath (EscapedPath u) (EscapedPath ref)).

(** ** Package [net/url]: query values *)

(** [url.Values] is [map[string][]string]. *)
Abbreviation Values := (gmap string (list string)).

(** [v.Add(key, value)]: append to the values of [key]. *)
Definition Values_Add (v : Values) (key value : string) : Values :=
  <[key := (default [] (v !! key) ++ [value])%list]> v.

(** The loop of [parseQuery]: one [strings.Cut] at the ampersand per turn;
    a pair with a semicolon, an empty key or a bad escape is skipped. *)
Fixpoint parseQuery_pairs (m : Values) (pairs : list string) : Values :=
  match pairs with
  | [] => m
  | key :: rest =>
      if strings_ContainsByte key ";" then parseQuery_pairs m rest
      else if String.eqb key "" then parseQuery_pairs m rest
      else
        let '(key, value, _) := strings_Cut key "=" in
        match QueryUnescape key with
        | inr _ => parseQuery_pairs m rest
        | inl key =>
            match QueryUnescape value with
            | inr _ => parseQuery_pairs m rest
            | inl value => parseQuery_pairs (Values_Add m key value) rest
            end
        end
  end.

(** [u.Query()]: [ParseQuery(u.RawQuery)] with its error dropped. *)
Definition URL_Query (u : URL) : Values :=
  if String.eqb (RawQuery u) "" then ∅
  else parseQuery_pairs ∅ (strings_Split (RawQuery u) "&").

(** The [key=value] pairs that [Encode] writes for one key. *)
Definition Values_Encode_key (v : Values) (k : string) : list string :=
  (fun value => QueryEscape k +:+ "=" +:+ QueryEscape value)
    <$> default [] (v !! k).

Definition str_join (sep : string) (l : list string) : string :=
  String.concat sep l.

(** [v.Encode()]: the pairs of all keys, keys sorted as byte strings, joined
    by ampersands. *)
Definition Values_Encode (v : Values) : string :=
  let keys := merge_sort String.le ((map_to_list v).*1) in
  str_join "&" (concat (Values_Encode_key v <$> keys)).

(** ** Packages [net/textproto] and [net/http]: headers *)

(** [validHeaderFieldByte(c)]: the token bytes of RFC 7230. *)
Definition validHeaderFieldByte (c : ascii) : bool :=
  is_alnum c || byte_in c "!#$%&'*+-.^_`|~".

(** The rewriting loop of [canonicalMIMEHeaderKey]: upper case for the first
    letter and for a letter after a hyphen, lower case elsewhere. *)
Fixpoint canonical_loop (upper : bool) (a : string) : string :=
  match a with
  | "" => ""
  | String c r =>
      let c := if upper then to_upper c else to_lower c in
      String c (canonical_loop (Ascii.eqb c "-") r)
  end.

(** [textproto.CanonicalMIMEHeaderKey(s)]: a key with a byte that is no token
    byte is returned unchanged. *)
Definition CanonicalMIMEHeaderKey (s : string) : string :=
  if str_forallb validHeaderFieldByte s then canonical_loop true s else s.

(** [http.Header] is [map[string][]string], keyed by canonical names. *)
Abbreviation Header := (gmap string (list string)).

(** [h.Get(key)]: the first value of the canonical key, or the empty string. *)
Definition Header_Get (h : Header) (key : string) : string :=
  match h !! CanonicalMIMEHeaderKey key with
  | Some (v :: _) => v
  | _ => ""
  end.

(** [h.Set(key, value)]: replace the values of the canonical key. *)
Definition Header_Set (h : Header) (key value : string) : Header :=
  <[CanonicalMIMEHeaderKey key := [value]]> h.

(** ** Package [net/http]: requests and responses *)

(** A [context.Context], up to identity. *)
Definition Context := nat.

Record Request := mkRequest {
  req_ctx : Context;
  req_Method : string;
  req_URL : URL;
  req_Header : Header;
  req_Body : option string;
  req_Host : string
}.

Record Response := mkResponse {
  StatusCode : Z;
  Status : string;
  resp_Header : Header;
  resp_Body : option string
}.

Definition set_req_Header (req : Request) (h : Header) : Request :=
  mkRequest (req_ctx req) (req_Method req) (req_URL req) h (req_Body req)
            (req_Host req).

Definition set_req_Body (req : Request) (b : option string) : Request :=
  mkRequest (req_ctx req) (req_Method req) (req_URL req) (req_Header req) b
            (req_Host req).

Definition set_resp_Body (resp : Response) (b : option string) : Response :=
  mkResponse (StatusCode resp) (Status resp) (resp_Header resp) b.

(** Go's [error] values that reach the client, and the values built by the
    repository's [pkg/errors], whose source is not part of the sources at
    hand: [errors.New], [errors.Wrap]/[errors.Wrapf] and
    [errors.NewHTTPError(resp, err, msg)] are kept as constructors that carry
    their arguments. *)
#[warnings="-register-all"]
Inductive error :=
| err_url (e : url_Error)
| err_http (msg : string)
| err_transport (msg : string)
| err_client_do (op url : string) (cause : error)
| fmt_Errorf (msg : string) (wrapped : option error)
| errors_New (msg : string)
| errors_Wrap (cause : error) (msg : string)
| errors_NewHTTPError (resp : option Response) (cause : option error)
                      (msg : string).

(** [validMethod(method)]: a non-empty token. *)
Definition validMethod (method : string) : bool :=
  negb (String.eqb method "") && str_forallb validHeaderFieldByte method.

(** [removeEmptyPort(host)]: drop a trailing colon that has no port. *)
Definition removeEmptyPort (host : string) : string :=
  let hasPort :=
    match strings_LastIndexByte host ":", strings_LastIndexByte host "]" with
    | Some i, Some j => (j <? i)%nat
    | Some _, None => true
    | None, _ => false
    end in
  if hasPort then strings_TrimSuffix host ":" else host.

(** [http.NewRequestWithContext(ctx, method, url, body)]; a nil context is
    [None]. *)
Definition NewRequestWithContext (ctx : option Context) (method url : string)
    (body : option string) : Request + error :=
  let method := if String.eqb method "" then "GET" else method in
  if negb (validMethod method) then inr (err_http "net/http: invalid method")
  else
    match ctx with
    | None => inr (err_http "net/http: nil Context")
    | Some ctx =>
        match url_Parse url with
        | inr e => inr (err_url e)
        | inl u =>
            let host := removeEmptyPort (Host u) in
            let u := mkURL (Scheme u) (Opaque u) (User u) host (Path u)
                           (RawPath u) (OmitHost u) (ForceQuery u)
                           (RawQuery u) (Fragment u) (RawFragment u) in
            inl (mkRequest ctx method u ∅ body host)
        end
    end.

Definition MethodGet : string := "GET".
Definition MethodPost : string := "POST".

(** ** Package [logger] *)

(** A [logger.Logger], up to identity: the discarding [NoOp] or a sink of
    the caller. *)
Inductive Logger :=
| NoOp
| Sink (name : string).

Inductive Level := DebugLevel | InfoLevel | WarnLevel | ErrorLevel.

Definition Level_String (l : Level) : string :=
  match l with
  | DebugLevel => "DEBUG"
  | InfoLevel => "INFO"
  | WarnLevel => "WARN"
  | ErrorLevel => "ERROR"
  end.

(** [Level] is an [int] in the source; the four constants are numbered by
    [iota]. *)
Definition Level_code (l : Level) : Z :=
  match l with
  | DebugLevel => 0
  | InfoLevel => 1
  | WarnLevel => 2
  | ErrorLevel => 3
  end.

(** [Level.String] on every value of the type: the switch with its default
    branch. *)
Definition Level_String_at (l : Z) : string :=
  if l =? Level_code DebugLevel then "DEBUG"
  else if l =? Level_code InfoLevel then "INFO"
  else if l =? Level_code WarnLevel then "WARN"
  else if l =? Level_code ErrorLevel then "ERROR"
  else "UNKNOWN".

(** A field value of a log record ([any] in the source). *)
Inductive field_value :=
| fv_string (s : string)
| fv_error (e : error).

(** One call on a [Logger]: the logger that receives it, the level of the
    method called, the message and the fields attached ([WithFields] or the
    key-value arguments). What the logger does with the record is its own
    business; [NoOp] drops it. *)
Record LogRecord := mkLogRecord {
  log_logger : Logger;
  log_level : Level;
  log_msg : string;
  log_fields : gmap string field_value
}.

(** ** The world a request runs in *)

(** What a run leaves behind: the calls made on loggers, the requests handed
    to the raw network transport, oldest first, and the time. *)
Record World := mkWorld {
  w_log : list LogRecord;
  w_sent : list Request;
  w_clock : nat
}.

Definition emit (w : World) (r : LogRecord) : World :=
  mkWorld (w_log w ++ [r])%list (w_sent w) (w_clock w).

(** The result pair [(resp, err)] of [RoundTrip] and [Do]. *)
Definition Result : Type := option Response * option error.

(** ** The transport chain ([transport.go]) *)

(** An [http.RoundTripper] of the chain. [DefaultTransport] is
    [http.DefaultTransport], the raw network transport. The two links carry
    the fields of their structs; a nil [Next] is [None]. The lower-case
    [headersTransport] and [loggingTransport] of the second version of the
    file have the same fields and the same method bodies. *)
#[warnings="-register-all"]
Inductive RoundTripper :=
| DefaultTransport
| HeadersTransport (Next : option RoundTripper)
                   (Headers : option (gmap string string))
| LoggingTransport (Next : option RoundTripper) (Logger_ : Logger)
                   (Debug_ : bool).

(** [TransportOption] is [func(http.RoundTripper) http.RoundTripper]. *)
Definition TransportOption : Type := RoundTripper -> RoundTripper.

Definition WithHeadersTransport (headers : option (gmap string string))
  : TransportOption :=
  fun next => HeadersTransport (Some next) headers.

Definition WithLogging (logger : Logger) (debug : bool) : TransportOption :=
  fun next => LoggingTransport (Some next) logger debug.

(** [NewTransport(opts...)]: the loop runs [i] from [len(opts)-1] down to 0
    and wraps the transport built so far in [opts[i]]. *)
Definition NewTransport (opts : list TransportOption) : RoundTripper :=
  fold_right (fun opt transport => opt transport) DefaultTransport opts.

(** [t.next()]: [t.Next], or [http.DefaultTransport] when it is nil. *)
Definition next (Next : option RoundTripper) : RoundTripper :=
  match Next with
  | Some t => t
  | None => DefaultTransport
  end.

(** The places of the source that range over a map. Go fixes no order for
    such a loop; each place gets its own order. *)
Inductive range_site :=
| site_header_defaults
| site_request_headers
| site_query_params.

(** One turn of the loop of [HeadersTransport.RoundTrip]. *)
Definition apply_default (h : Header) (kv : string * string) : Header :=
  if String.eqb (Header_Get h kv.1) "" then Header_Set h kv.1 kv.2 else h.

(** One turn of the header loop of [do]. *)
Definition apply_override (h : Header) (kv : string * string) : Header :=
  Header_Set h kv.1 kv.2.

(** One turn of the outer loop of [addQueryParams]. *)
Definition add_values (q : Values) (kvs : string * list string) : Values :=
  fold_left (fun q v => Values_Add q kvs.1 v) kvs.2 q.

(** ** Doers *)

(** A [*cookiejar.Jar], up to identity. *)
Definition CookieJar := nat.

(** The [http.Client] that [createDefaultDoer] fills in. *)
Record http_Client := mk_http_Client {
  hc_Timeout : Z;
  hc_Transport : RoundTripper;
  hc_Jar : option CookieJar
}.

(** A [Doer]: the [http.Client] of the package, or an implementation of the
    caller, which is a function from the request to a result pair. *)
Inductive Doer :=
| HttpClient (c : http_Client)
| CustomDoerOf (f : Request -> Result).

(** ** The configuration builder ([config.go]) *)

Record ClientConfig := mkClientConfig {
  BaseURL : option URL;
  Timeout : Z;
  RetryAttempts : Z;
  Headers : option (gmap string string);
  Jar : option CookieJar;
  Logger_of : Logger;
  Debug : bool;
  CustomDoer : option Doer
}.

(** [ClientOption] is a function on a pointer to [ClientConfig]: the draft
    after the call, and
    the calls the option made on the logger of the draft. *)
Definition ClientOption : Type := ClientConfig -> ClientConfig * list LogRecord.

(** [defaultTimeout = 10 * time.Second], in nanoseconds. *)
Definition defaultTimeout : Z := 10 * 1000000000.
Definition defaultUserAgent : string :=
  "Mozilla/5.0 (Windows NT 10.0; Win64; x64) AppleWebKit/537.36".

Definition WithTimeout (d : Z) : ClientOption :=
  fun cfg =>
    if 0 <? d
    then (mkClientConfig (BaseURL cfg) d (RetryAttempts cfg) (Headers cfg)
                         (Jar cfg) (Logger_of cfg) (Debug cfg) (CustomDoer cfg),
          [])
    else (cfg, []).

(** [normalizeBaseURL(baseURL)]. *)
Definition normalizeBaseURL (baseURL : string) : URL + error :=
  match url_Parse baseURL with
  | inr e => inr (fmt_Errorf "invalid base URL: %w" (Some (err_url e)))
  | inl u =>
      if negb (IsAbs u)
      then inr (fmt_Errorf "base URL must be absolute (have scheme and host)"
                           None)
      else inl (mkURL (Scheme u) (Opaque u) (User u) (Host u)
                      (strings_TrimRight (Path u) "/") (RawPath u)
                      (OmitHost u) (ForceQuery u) (RawQuery u) (Fragment u)
                      (RawFragment u))
  end.

Definition WithBaseURL (baseURL : string) : ClientOption :=
  fun cfg =>
    if String.eqb baseURL "" then (cfg, [])
    else
      match normalizeBaseURL baseURL with
      | inr err =>
          (cfg, [mkLogRecord (Logger_of cfg) ErrorLevel "invalid baseURL"
                   (<["url" := fv_string baseURL]>
                    (<["error" := fv_error err]> ∅))])
      | inl u =>
          (mkClientConfig (Some u) (Timeout cfg) (RetryAttempts cfg)
                          (Headers cfg) (Jar cfg) (Logger_of cfg) (Debug cfg)
                          (CustomDoer cfg), [])
      end.

Definition WithRetryAttempts (attempts : Z) : ClientOption :=
  fun cfg =>
    if 0 <=? attempts
    then (mkClientConfig (BaseURL cfg) (Timeout cfg) attempts (Headers cfg)
                         (Jar cfg) (Logger_of cfg) (Debug cfg) (CustomDoer cfg),
          [])
    else (cfg, []).

(** [len(m)] of a map that may be nil. *)
Definition map_len {V : Type} (m : option (gmap string V)) : nat :=
  match m with
  | Some m => size m
  | None => 0%nat
  end.

(** [WithHeaders(headers)]: [maps.Copy(cfg.Headers, headers)] writes every
    entry of [headers] into the map of the draft. *)
Definition WithHeaders (headers : option (gmap string string)) : ClientOption :=
  fun cfg =>
    if (map_len headers =? 0)%nat then (cfg, [])
    else
      let dst := match Headers cfg with
                 | Some m => m
                 | None => ∅
                 end in
      (mkClientConfig (BaseURL cfg) (Timeout cfg) (RetryAttempts cfg)
                      (Some (default ∅ headers ∪ dst)) (Jar cfg)
                      (Logger_of cfg) (Debug cfg) (CustomDoer cfg), []).

Definition WithCookieJar (jar : option CookieJar) : ClientOption :=
  fun cfg =>
    match jar with
    | Some _ =>
        (mkClientConfig (BaseURL cfg) (Timeout cfg) (RetryAttempts cfg)
                        (Headers cfg) jar (Logger_of cfg) (Debug cfg)
                        (CustomDoer cfg), [])
    | None => (cfg, [])
    end.

Definition WithLogger (l : option Logger) : ClientOption :=
  fun cfg =>
    match l with
    | Some l =>
        (mkClientConfig (BaseURL cfg) (Timeout cfg) (RetryAttempts cfg)
                        (Headers cfg) (Jar cfg) l (Debug cfg) (CustomDoer cfg),
         [])
    | None => (cfg, [])
    end.

Definition WithDebug (enable : bool) : ClientOption :=
  fun cfg =>
    (mkClientConfig (BaseURL cfg) (Timeout cfg) (RetryAttempts cfg)
                    (Headers cfg) (Jar cfg) (Logger_of cfg) enable
                    (CustomDoer cfg), []).

Definition WithCustomDoer (d : option Doer) : ClientOption :=
  fun cfg =>
    match d with
    | Some _ =>
        (mkClientConfig (BaseURL cfg) (Timeout cfg) (RetryAttempts cfg)
                        (Headers cfg) (Jar cfg) (Logger_of cfg) (Debug cfg) d,
         [])
    | None => (cfg, [])
    end.

(** The draft that [buildConfig] starts from. *)
Definition default_config : ClientConfig :=
  mkClientConfig None defaultTimeout 3
                 (Some {["User-Agent" := defaultUserAgent]}) None NoOp false
                 None.

(** The loop of [buildConfig]: each option works on the draft the options
    before it left. *)
Fixpoint apply_options (opts : list ClientOption) (cfg : ClientConfig)
  : ClientConfig * list LogRecord :=
  match opts with
  | [] => (cfg, [])
  | opt :: rest =>
      let '(cfg, l1) := opt cfg in
      let '(cfg, l2) := apply_options rest cfg in
      (cfg, (l1 ++ l2)%list)
  end.

Definition buildConfig (opts : list ClientOption)
  : ClientConfig * list LogRecord :=
  apply_options opts default_config.

(** The calls of the option constructors of the package, as data: a client
    is built from a list of them. *)
Inductive OptionCall :=
| CallWithTimeout (d : Z)
| CallWithBaseURL (baseURL : string)
| CallWithRetryAttempts (attempts : Z)
| CallWithHeaders (headers : option (gmap string string))
| CallWithCookieJar (jar : option CookieJar)
| CallWithLogger (l : option Logger)
| CallWithDebug (enable : bool)
| CallWithCustomDoer (d : option Doer).

Definition option_of (c : OptionCall) : ClientOption :=
  match c with
  | CallWithTimeout d => WithTimeout d
  | CallWithBaseURL s => WithBaseURL s
  | CallWithRetryAttempts n => WithRetryAttempts n
  | CallWithHeaders h => WithHeaders h
  | CallWithCookieJar j => WithCookieJar j
  | CallWithLogger l => WithLogger l
  | CallWithDebug b => WithDebug b
  | CallWithCustomDoer d => WithCustomDoer d
  end.

(** The checks of the options: a call whose argument the option refuses. *)
Definition invalid_call (c : OptionCall) : bool :=
  match c with
  | CallWithTimeout d => d <=? 0
  | CallWithBaseURL s =>
      match normalizeBaseURL s with
      | inr _ => true
      | inl _ => String.eqb s ""
      end
  | CallWithRetryAttempts n => n <? 0
  | CallWithHeaders h => (map_len h =? 0)%nat
  | CallWithCookieJar None | CallWithLogger None | CallWithCustomDoer None =>
      true
  | _ => false
  end.

(** ** The client ([client.go]) *)

Record Client := mkClient {
  doer : Doer;
  baseURL : option URL;
  logger : Logger;
  config : ClientConfig
}.

(** [buildTransport(cfg)] (second version of the transport file): the raw
    transport, wrapped in the logging link, wrapped in the header link. *)
Definition buildTransport (cfg : ClientConfig) : RoundTripper :=
  let tr := DefaultTransport in
  let tr := LoggingTransport (Some tr) (Logger_of cfg) (Debug cfg) in
  let tr := HeadersTransport (Some tr) (Headers cfg) in
  tr.

(** [createDefaultDoer(cfg)], the version that calls [NewTransport]. *)
Definition createDefaultDoer (cfg : ClientConfig) : Doer :=
  HttpClient
    (mk_http_Client (Timeout cfg)
       (NewTransport [WithHeadersTransport (Headers cfg);
                      WithLogging (Logger_of cfg) (Debug cfg)])
       (Jar cfg)).

(** [createDefaultDoer(cfg)], the version that calls [buildTransport]. *)
Definition createDefaultDoer_build (cfg : ClientConfig) : Doer :=
  HttpClient (mk_http_Client (Timeout cfg) (buildTransport cfg) (Jar cfg)).

(** [New(opts...)]: the client, the error (always nil in the source) and the
    calls made on loggers while the options ran. *)
Definition New (opts : list ClientOption)
  : Client * option error * list LogRecord :=
  let '(cfg, logs) := buildConfig opts in
  let doer := match CustomDoer cfg with
              | Some d => d
              | None => createDefaultDoer cfg
              end in
  (mkClient doer (BaseURL cfg) (Logger_of cfg) cfg, None, logs).


(** [RequestConfig]: a nil [Params] or [Headers] map is [None]. *)
Record RequestConfig := mkRequestConfig {
  Params : option Values;
  Body : option string;
  rc_Headers : option (gmap string string)
}.

(** What a call of [do] comes to: it returns a pair, or it panics on the nil
    response of a doer that reported no error. *)
Inductive Outcome :=
| Returned (resp : option Response) (err : option error)
| Panicked.

(** Modelled from the spec: the package [pkg/errors] of the repository is
    not among the sources, so the three kinds of error of the taxonomy are
    read off the constructor that [do] uses: a [NewHTTPError] with a
    response is an HTTPStatusError, one without a response and with a cause
    is a NetworkError, and the [New]/[Wrap] values of URL resolution and
    request construction are ConfigurationErrors. *)
Inductive ErrorKind := ConfigurationError | NetworkError | HTTPStatusError.

Definition error_kind (e : error) : option ErrorKind :=
  match e with
  | errors_NewHTTPError (Some _) _ _ => Some HTTPStatusError
  | errors_NewHTTPError None (Some _) _ => Some NetworkError
  | errors_New _ | errors_Wrap _ _ => Some ConfigurationError
  | _ => None
  end.

(** Modelled from the spec: the status code and the response that an
    HTTPStatusError carries are those of the response given to
    [NewHTTPError]. *)
Definition HTTPError_Response (e : error) : option Response :=
  match e with
  | errors_NewHTTPError resp _ _ => resp
  | _ => None
  end.

Definition HTTPError_StatusCode (e : error) : option Z :=
  StatusCode <$> HTTPError_Response e.

(** ** A sample environment

    Concrete choices for what the pipeline is run in: an order for [range]
    loops, raw transports, and the formatting functions. *)

(** Every [range] loop visits the map in the order of [map_to_list]. *)
Definition range_in_list_order
  : forall V : Type, range_site -> gmap string V -> list (string * V) :=
  fun V _ m => map_to_list m.

(** A raw transport that refuses every connection. *)
Definition net_refusing : list Request -> Request -> (Response + error) * nat :=
  fun _ _ => (inr (err_transport "connection refused"), 1%nat).

(** A raw transport that answers every request with the given status. *)
Definition net_answering (code : Z)
  : list Request -> Request -> (Response + error) * nat :=
  fun _ _ => (inl (mkResponse code "" ∅ (Some "ok")), 1%nat).

Definition sample_dump_request (req : Request) : string := req_Method req.
Definition sample_dump_response (resp : Response) : string := Status resp.
Definition sample_duration (n : nat) : string := "".

Definition empty_world : World := mkWorld [] [] 0.

(** The context of a caller, [context.Background()]. *)
Definition background : option Context := Some 0%nat.

(** ** Notions for the statements *)

(** The entries of a map whose name has the canonical form of [k] all carry
    the value [v]. *)
Definition agree_on (l : list (string * string)) (k v : string) : Prop :=
  forall k' v', (k', v') ∈ l ->
    CanonicalMIMEHeaderKey k' = CanonicalMIMEHeaderKey k -> v' = v.

(** The result pair of the raw transport for its answer. *)
Definition answer_pair (a : Response + error) : Result :=
  match a with
  | inl r => (Some r, None)
  | inr e => (None, Some e)
  end.

(** What [do] makes of the result of the doer. *)
Definition classify (res : Result * World) : Outcome * World :=
  let '((resp, err), w) := res in
  match err with
  | Some err =>
      (Returned None
         (Some (errors_NewHTTPError None (Some err) "request failed")), w)
  | None =>
      match resp with
      | None => (Panicked, w)
      | Some resp =>
          if 400 <=? StatusCode resp
          then (Returned (Some resp)
                  (Some (errors_NewHTTPError (Some resp) None
                           "request returned error status")), w)
          else (Returned (Some resp) None, w)
      end
  end.

(** The client that [New] returns for a configuration with no custom doer. *)
Definition client_of (cfg : ClientConfig) : Client :=
  mkClient (createDefaultDoer cfg) (BaseURL cfg) (Logger_of cfg) cfg.

(** An option that leaves a field of the draft alone, for every draft. *)
Definition keeps {A : Type} (f : ClientConfig -> A) (opt : ClientOption)
  : Prop :=
  forall cfg, f (opt cfg).1 = f cfg.

(** A path element that is neither of the dot segments. *)
Definition not_dot (elem : string) : bool :=
  negb (String.eqb elem "." || String.eqb elem "..").

(** An escaped path that [resolvePath] has nothing to do on: empty, or
    rooted and free of dot segments. *)
Definition clean_path (p : string) : bool :=
  match p with
  | "" => true
  | String c rest =>
      Ascii.eqb c "/" && forallb not_dot (strings_Split rest "/")
  end.

(** The elements of a path, each after a slash. *)
Fixpoint slashes (elems : list string) : string :=
  match elems with
  | [] => ""
  | e :: es => "/" +:+ e +:+ slashes es
  end.

(** A request that differs from another in its headers at most. *)
Definition same_but_headers (req' req : Request) : Prop :=
  req_ctx req' = req_ctx req /\ req_Method req' = req_Method req
  /\ req_URL req' = req_URL req /\ req_Body req' = req_Body req
  /\ req_Host req' = req_Host req.

(** What holds of every draft that the options of the package have worked
    on. *)
Definition config_ok (cfg : ClientConfig) : Prop :=
  0 < Timeout cfg
  /\ 0 <= RetryAttempts cfg
  /\ (exists m, Headers cfg = Some m /\ is_Some (m !! "User-Agent"))
  /\ (forall u, BaseURL cfg = Some u ->
        IsAbs u = true /\ strings_HasSuffix (Path u) "/" = false).

(** The value that the header map of a draft has for a name. *)
Definition configured_header (k : string) (cfg : ClientConfig)
  : option string :=
  match Headers cfg with
  | Some m => m !! k
  | None => None
  end.

(** The bytes that separate the pairs of a query and a key from its
    value. *)
Definition query_plain (c : ascii) : bool := negb (byte_in c "&;=").

(** One pair of an encoded query, as [Encode] writes it. *)
Definition query_pair (k v : string) : string :=
  QueryEscape k +:+ "=" +:+ QueryEscape v.

(** No key of the values is bound to the empty list: what [parseQuery]
    builds, and what [Encode] can write down. *)
Definition nonempty_values (q : Values) : Prop :=
  forall k, q !! k <> Some [].

(** The [Transport] of the [http.Client] behind a doer of the package; a
    doer of the caller has none. *)
Definition transport_of (d : Doer) : option RoundTripper :=
  match d with
  | HttpClient h => Some (hc_Transport h)
  | CustomDoerOf _ => None
  end.

(** An opaque URL as [url.Parse] builds it: beside the scheme, the query
    and the fragment it has its opaque part only. *)
Definition opaque_form (u : URL) : Prop :=
  Opaque u <> "" /\ User u = None /\ Host u = "" /\ Path u = ""
  /\ RawPath u = "".

(** A [RawPath] as [setPath] leaves it: empty, or a valid encoding of [Path]
    that is not the default one. *)
Definition raw_path_settled (u : URL) : Prop :=
  RawPath u = ""
  \/ (validEncoded (RawPath u) encodePath = true
      /\ unescape (RawPath u) encodePath = inl (Path u)
      /\ escape (Path u) encodePath <> RawPath u).

(** A hierarchical URL whose path reference resolution has nothing to do
    on. *)
Definition hierarchical_form (u : URL) : Prop :=
  Opaque u = "" /\ raw_path_settled u /\ clean_path (EscapedPath u) = true.

(** Query parameters that give [addQueryParams] nothing to change on a URL:
    nil; or with no value under any name, on a URL whose query is written
    the way [Encode] writes it. *)
Definition adds_no_value (params : option Values) (u : URL) : Prop :=
  match params with
  | None => True
  | Some m =>
      (forall k vs, m !! k = Some vs -> vs = [])
      /\ Values_Encode (URL_Query u) = RawQuery u
  end.

(** ** Running the chain *)

Section Pipeline.

(** The order in which a [range] loop at a given place visits a map. *)
Variable go_range :
  forall V : Type, range_site -> gmap string V -> list (string * V).
Hypothesis go_range_perm :
  forall V site (m : gmap string V), go_range V site m ≡ₚ map_to_list m.

(** The raw network transport: from the requests sent so far and the
    request at hand, a response or a transport failure, and the time taken. *)
Variable net : list Request -> Request -> (Response + error) * nat.

(** [httputil.DumpRequestOut(req, false)], [httputil.DumpResponse(resp,
    false)] and [time.Duration.String]. *)
Variable DumpRequestOut : Request -> string.
Variable DumpResponse : Response -> string.
Variable Duration_String : nat -> string.

(** A [range] over a map that may be nil. *)
Definition range_map {V : Type} (site : range_site)
    (m : option (gmap string V)) : list (string * V) :=
  match m with
  | Some m => go_range V site m
  | None => []
  end.

(** [http.DefaultTransport.RoundTrip(req)]. *)
Definition default_RoundTrip (req : Request) (w : World)
  : Request * Result * World :=
  let '(res, took) := net (w_sent w) req in
  let w' := mkWorld (w_log w) (w_sent w ++ [req])%list (w_clock w + took)%nat in
  match res with
  | inl resp => (req, (Some resp, None), w')
  | inr err => (req, (None, Some err), w')
  end.

(** The record of [t.logRequest(req, body, start)] at time [now]: the fields
    [method], [url], [headers] and [duration], and [body] when the body is
    not empty, logged at debug level. *)
Definition request_record (logger : Logger) (req : Request) (body : string)
    (start now : nat) : LogRecord :=
  let fields : gmap string field_value :=
    <["duration" := fv_string (Duration_String (now - start)%nat)]>
    (<["headers" := fv_string (DumpRequestOut req)]>
    (<["url" := fv_string (URL_String (req_URL req))]>
    (<["method" := fv_string (req_Method req)]> ∅))) in
  let fields :=
    if (0 <? String.length body)%nat
    then <["body" := fv_string body]> fields else fields in
  mkLogRecord logger DebugLevel "HTTP Request" fields.

Definition logRequest (logger : Logger) (req : Request) (body : string)
    (start : nat) (w : World) : World :=
  emit w (request_record logger req body start (w_clock w)).

(** The record of [t.logResponse(resp)]: the fields [status] and [headers],
    and [body] when the body is not empty. *)
Definition response_record (logger : Logger) (resp : Response) : LogRecord :=
  let body := default "" (resp_Body resp) in
  let fields : gmap string field_value :=
    <["headers" := fv_string (DumpResponse resp)]>
    (<["status" := fv_string (Status resp)]> ∅) in
  let fields :=
    if (0 <? String.length body)%nat
    then <["body" := fv_string body]> fields else fields in
  mkLogRecord logger DebugLevel "HTTP Response" fields.

(** [t.logResponse(resp)]: the body is read and put back. *)
Definition logResponse (logger : Logger) (resp : Response) (w : World)
  : Response * World :=
  let body := default "" (resp_Body resp) in
  let resp' := match resp_Body resp with
               | Some _ => set_resp_Body resp (Some body)
               | None => resp
               end in
  (resp', emit w (response_record logger resp)).

(** [RoundTrip] of the links. The request is a pointer in the source: a link
    that changes it changes it for its caller too, so the request comes back
    with the result. *)
Fixpoint RoundTrip (t : RoundTripper) (req : Request) (w : World)
  : Request * Result * World :=
  match t with
  | DefaultTransport => default_RoundTrip req w
  | HeadersTransport Next Headers =>
      let req :=
        set_req_Header req
          (fold_left apply_default (range_map site_header_defaults Headers)
                     (req_Header req)) in
      match Next with
      | Some t' => RoundTrip t' req w
      | None => default_RoundTrip req w
      end
  | LoggingTransport Next logger debug =>
      let down req w :=
        match Next with
        | Some t' => RoundTrip t' req w
        | None => default_RoundTrip req w
        end in
      if negb debug then down req w
      else
        let start := w_clock w in
        let reqBody := default "" (req_Body req) in
        let req := match req_Body req with
                   | Some _ => set_req_Body req (Some reqBody)
                   | None => req
                   end in
        let '(req, (resp, err), w) := down req w in
        let w := logRequest logger req reqBody start w in
        match err, resp with
        | None, Some r =>
            let '(r', w) := logResponse logger r w in
            (req, (Some r', err), w)
        | _, _ => (req, (resp, err), w)
        end
  end.

(** [urlErrorOp(method)]: the method with only its first letter in upper
    case, the [Op] of the error that [Do] returns. *)
Definition urlErrorOp (method : string) : string :=
  match method with
  | "" => "Get"
  | String c r => String c (strings_ToLower r)
  end.

(** [http.Client.Do(req)] in the case where it comes to one round trip on
    the request as [do] made it: the answer is no redirect that the client
    follows, the URL has no user information (for which the client adds an
    Authorization header), the jar holds no cookie for the URL, and the
    timeout does not expire. The request goes through the transport of the
    client once; a failure comes back as a [*url.Error] around the cause.
    What the raw transport sees of the headers is stated on [RoundTrip],
    the code of the repository, and not through this function. *)
Definition http_Client_Do (c : http_Client) (req : Request) (w : World)
  : Result * World :=
  let '(req', (resp, err), w') := RoundTrip (hc_Transport c) req w in
  match err, resp with
  | Some e, _ =>
      ((None, Some (err_client_do (urlErrorOp (req_Method req'))
                                  (URL_String (req_URL req')) e)), w')
  | None, None =>
      ((None, Some (err_http "http: RoundTripper returned a nil *Response with a nil error")), w')
  | None, Some r => ((Some r, None), w')
  end.

Definition Doer_Do (d : Doer) (req : Request) (w : World) : Result * World :=
  match d with
  | HttpClient c => http_Client_Do c req w
  | CustomDoerOf f => (f req, w)
  end.

(** ** The request executor ([request.go]) *)

(** [c.addQueryParams(u, params)]. *)
Definition addQueryParams (u : URL) (params : option Values) : URL :=
  match params with
  | None => u
  | Some _ =>
      let q := fold_left add_values (range_map site_query_params params)
                         (URL_Query u) in
      mkURL (Scheme u) (Opaque u) (User u) (Host u) (Path u) (RawPath u)
            (OmitHost u) (ForceQuery u) (Values_Encode q) (Fragment u)
            (RawFragment u)
  end.

(** [c.resolveURL(pathOrURL, queryParams)]. *)
Definition resolveURL (c : Client) (pathOrURL : string)
    (queryParams : option Values) : URL + error :=
  match url_Parse pathOrURL with
  | inr err =>
      inr (errors_Wrap (err_url err) ("invalid URL or path: " +:+ pathOrURL))
  | inl u =>
      if IsAbs u then inl (addQueryParams u queryParams)
      else
        match baseURL c with
        | None =>
            inr (errors_New "cannot resolve relative path without a base URL")
        | Some base =>
            inl (addQueryParams (ResolveReference base u) queryParams)
        end
  end.

(** The header loop of [do]. *)
Definition apply_request_headers (req : Request)
    (headers : option (gmap string string)) : Request :=
  set_req_Header req
    (fold_left apply_override (range_map site_request_headers headers)
               (req_Header req)).

(** [c.do(ctx, method, urlOrPath, opts)]. *)
Definition do (c : Client) (ctx : option Context) (method urlOrPath : string)
    (opts : option RequestConfig) (w : World) : Outcome * World :=
  let opts := match opts with
              | Some o => o
              | None => mkRequestConfig None None None
              end in
  match resolveURL c urlOrPath (Params opts) with
  | inr err => (Returned None (Some (errors_Wrap err "failed to resolve URL")), w)
  | inl u =>
      match NewRequestWithContext ctx method (URL_String u) (Body opts) with
      | inr err =>
          (Returned None (Some (errors_Wrap err "failed to create request")), w)
      | inl req =>
          let req := apply_request_headers req (rc_Headers opts) in
          let '((resp, err), w) := Doer_Do (doer c) req w in
          match err with
          | Some err =>
              (Returned None
                 (Some (errors_NewHTTPError None (Some err) "request failed")),
               w)
          | None =>
              match resp with
              | None => (Panicked, w)
              | Some resp =>
                  if 400 <=? StatusCode resp
                  then (Returned (Some resp)
                          (Some (errors_NewHTTPError (Some resp) None
                                   "request returned error status")), w)
                  else (Returned (Some resp) None, w)
              end
          end
      end
  end.

Definition Client_Get (c : Client) (ctx : option Context) (path : string)
    (opts : option RequestConfig) (w : World) : Outcome * World :=
  do c ctx MethodGet path opts w.

Definition Client_Post (c : Client) (ctx : option Context) (path : string)
    (opts : option RequestConfig) (w : World) : Outcome * World :=
  do c ctx MethodPost path opts w.


(** The request that [do] hands to the doer, when it gets that far. *)
Definition request_of (c : Client) (ctx : option Context)
    (method urlOrPath : string) (opts : RequestConfig) : option Request :=
  match resolveURL c urlOrPath (Params opts) with
  | inr _ => None
  | inl u =>
      match NewRequestWithContext ctx method (URL_String u) (Body opts) with
      | inr _ => None
      | inl req => Some (apply_request_headers req (rc_Headers opts))
      end
  end.

(** The request after the loop of the header link. *)
Definition with_defaults (Headers : option (gmap string string))
    (req : Request) : Request :=
  set_req_Header req
    (fold_left apply_default (range_map site_header_defaults Headers)
               (req_Header req)).

(** The records that the logging link writes for one round trip: [body] is
    the body read before the call, [req] the request after it, [start] and
    [now] the times before and after, [res] the result. *)
Definition link_records (logger : Logger) (debug : bool) (body : string)
    (req : Request) (start now : nat) (res : Result) : list LogRecord :=
  if debug then
    request_record logger req body start now
    :: match res with
       | (Some r, None) => [response_record logger r]
       | _ => []
       end
  else [].

(** * Properties *)

(** ** Headers *)

Lemma Header_Get_canonical (h : Header) (k k' : string) :
  CanonicalMIMEHeaderKey k = CanonicalMIMEHeaderKey k' ->
  Header_Get h k = Header_Get h k'.
Proof. unfold Header_Get. by intros ->. Qed.

Lemma Header_Get_Set_same (h : Header) (k k' v : string) :
  CanonicalMIMEHeaderKey k = CanonicalMIMEHeaderKey k' ->
  Header_Get (Header_Set h k v) k' = v.
Proof.
  intros Hc. unfold Header_Get, Header_Set.
  by rewrite Hc, lookup_insert_eq.
Qed.

Lemma Header_Get_Set_other (h : Header) (k k' v : string) :
  CanonicalMIMEHeaderKey k <> CanonicalMIMEHeaderKey k' ->
  Header_Get (Header_Set h k v) k' = Header_Get h k'.
Proof.
  intros Hc. unfold Header_Get, Header_Set.
  by rewrite lookup_insert_ne.
Qed.

Lemma agree_on_cons x l k v : agree_on (x :: l) k v -> agree_on l k v.
Proof. intros H k' v' Hin. apply H. by right. Qed.

Lemma agree_on_perm l l' k v : l ≡ₚ l' -> agree_on l k v -> agree_on l' k v.
Proof. intros Hp H k' v' Hin. apply H. by rewrite Hp. Qed.

(** The override loop: the last write under a canonical name wins, so a name
    whose entries agree ends with their value. *)
Lemma overrides_get (l : list (string * string)) (h : Header) (k v : string) :
  (k, v) ∈ l -> agree_on l k v ->
  Header_Get (fold_left apply_override l h) k = v.
Proof.
  induction l as [|x l IH] using rev_ind; intros Hin Hag.
  - by apply elem_of_nil in Hin.
  - rewrite fold_left_app. cbn [fold_left]. unfold apply_override at 1.
    destruct (decide (CanonicalMIMEHeaderKey x.1 = CanonicalMIMEHeaderKey k))
      as [Hc|Hc].
    + rewrite Header_Get_Set_same by done.
      apply (Hag x.1 x.2); [|done].
      apply elem_of_app. right. destruct x. by left.
    + rewrite Header_Get_Set_other by done.
      apply IH.
      * apply elem_of_app in Hin as [Hin|Hin]; [done|].
        apply list_elem_of_singleton in Hin. subst x. by destruct Hc.
      * intros k' v' Hin'. apply Hag. apply elem_of_app. by left.
Qed.

(** The default loop leaves a header that is present alone. *)
Lemma defaults_keep_present (l : list (string * string)) (h : Header)
    (k : string) :
  Header_Get h k <> "" ->
  Header_Get (fold_left apply_default l h) k = Header_Get h k.
Proof.
  revert h. induction l as [|x l IH]; intros h Hne; [done|].
  cbn [fold_left].
  assert (Header_Get (apply_default h x) k = Header_Get h k) as Hx.
  { unfold apply_default. destruct (String.eqb_spec (Header_Get h x.1) "") as [He|He]; [|done].
    destruct (decide (CanonicalMIMEHeaderKey x.1 = CanonicalMIMEHeaderKey k))
      as [Hc|Hc].
    - rewrite (Header_Get_canonical h _ _ Hc) in He. by destruct Hne.
    - by apply Header_Get_Set_other. }
  rewrite IH; rewrite Hx; done.
Qed.

(** The default loop keeps a value that the defaults of the same canonical
    name agree on. *)
Lemma defaults_keep_agreed (l : list (string * string)) (h : Header)
    (k v : string) :
  agree_on l k v -> Header_Get h k = v ->
  Header_Get (fold_left apply_default l h) k = v.
Proof.
  revert h. induction l as [|x l IH]; intros h Hag Hv; [done|].
  cbn [fold_left]. apply IH; [by eapply agree_on_cons|].
  unfold apply_default.
  destruct (String.eqb_spec (Header_Get h x.1) "") as [He|He]; [|done].
  destruct (decide (CanonicalMIMEHeaderKey x.1 = CanonicalMIMEHeaderKey k))
    as [Hc|Hc].
  - rewrite Header_Get_Set_same by done.
    apply (Hag x.1 x.2); [|done]. destruct x. by left.
  - by rewrite Header_Get_Set_other.
Qed.

(** The default loop injects the default of a header that is absent. *)
Lemma defaults_inject_absent (l : list (string * string)) (h : Header)
    (k v : string) :
  (k, v) ∈ l -> agree_on l k v -> Header_Get h k = "" ->
  Header_Get (fold_left apply_default l h) k = v.
Proof.
  revert h. induction l as [|x l IH]; intros h Hin Hag Hv.
  - by apply elem_of_nil in Hin.
  - cbn [fold_left].
    destruct (decide (CanonicalMIMEHeaderKey x.1 = CanonicalMIMEHeaderKey k))
      as [Hc|Hc].
    + apply defaults_keep_agreed; [by eapply agree_on_cons|].
      unfold apply_default.
      rewrite (Header_Get_canonical h _ _ Hc), Hv. cbn.
      rewrite Header_Get_Set_same by done.
      apply (Hag x.1 x.2); [|done]. destruct x. by left.
    + apply IH.
      * apply elem_of_cons in Hin as [Heq|Hin]; [subst x; by destruct Hc|done].
      * by eapply agree_on_cons.
      * unfold apply_default.
        destruct (String.eqb_spec (Header_Get h x.1) ""); [|done].
        by rewrite Header_Get_Set_other.
Qed.

Lemma range_map_elem {V : Type} (site : range_site) (m : gmap string V)
    (k : string) (v : V) :
  (k, v) ∈ range_map site (Some m) <-> m !! k = Some v.
Proof.
  unfold range_map. rewrite (go_range_perm V site m).
  apply elem_of_map_to_list.
Qed.

(** Names that differ only in the case of their letters have one canonical
    form, as long as they are made of token bytes. *)
Lemma to_lower_valid (c : ascii) :
  validHeaderFieldByte (to_lower c) = validHeaderFieldByte c.
Proof. by destruct c as [[] [] [] [] [] [] [] []]. Qed.

Lemma to_upper_to_lower (c : ascii) : to_upper (to_lower c) = to_upper c.
Proof. by destruct c as [[] [] [] [] [] [] [] []]. Qed.

Lemma canonical_loop_case (a b : string) (upper : bool) :
  strings_ToLower a = strings_ToLower b ->
  canonical_loop upper a = canonical_loop upper b.
Proof.
  revert b upper. induction a as [|c a IH]; intros [|d b] upper Heq;
    try done.
  cbn in Heq. injection Heq as Hcd Hab. cbn.
  assert ((if upper then to_upper c else to_lower c)
          = (if upper then to_upper d else to_lower d)) as ->.
  { destruct upper; [|done].
    by rewrite <- (to_upper_to_lower c), Hcd, to_upper_to_lower. }
  f_equal. by apply IH.
Qed.

Lemma ToLower_valid (a : string) :
  str_forallb validHeaderFieldByte (strings_ToLower a)
  = str_forallb validHeaderFieldByte a.
Proof.
  unfold strings_ToLower. induction a as [|c a IH]; [done|].
  cbn [str_map str_forallb]. by rewrite to_lower_valid, IH.
Qed.

(** [CanonicalMIMEHeaderKey] does not tell apart two names of token bytes
    that differ only in the case of their letters. *)
Lemma CanonicalMIMEHeaderKey_case (a b : string) :
  str_forallb validHeaderFieldByte a = true ->
  strings_ToLower a = strings_ToLower b ->
  CanonicalMIMEHeaderKey a = CanonicalMIMEHeaderKey b.
Proof.
  intros Ha Hab. unfold CanonicalMIMEHeaderKey.
  assert (str_forallb validHeaderFieldByte b = true) as Hb.
  { by rewrite <- ToLower_valid, <- Hab, ToLower_valid. }
  rewrite Ha, Hb. by apply canonical_loop_case.
Qed.

(** ** The transport chain *)

(** [RoundTrip] goes on with [t.next()]. *)
Lemma RoundTrip_next (Next : option RoundTripper) (req : Request) (w : World) :
  match Next with
  | Some t' => RoundTrip t' req w
  | None => default_RoundTrip req w
  end = RoundTrip (next Next) req w.
Proof. by destruct Next. Qed.

(** Reading a body to its end and putting the bytes back leaves the request
    and the response as they were. *)
Lemma request_body_restored (req : Request) :
  match req_Body req with
  | Some _ => set_req_Body req (Some (default "" (req_Body req)))
  | None => req
  end = req.
Proof. by destruct req as [? ? ? ? [b|] ?]. Qed.

Lemma response_body_restored (resp : Response) :
  match resp_Body resp with
  | Some _ => set_resp_Body resp (Some (default "" (resp_Body resp)))
  | None => resp
  end = resp.
Proof. by destruct resp as [? ? ? [b|]]. Qed.

Lemma RoundTrip_logging (Next : option RoundTripper) (logger : Logger)
    (debug : bool) (req : Request) (w : World) :
  RoundTrip (LoggingTransport Next logger debug) req w
  = let '(req', res, w1) := RoundTrip (next Next) req w in
    (req', res,
     mkWorld (w_log w1 ++ link_records logger debug (default "" (req_Body req))
                                       req' (w_clock w) (w_clock w1) res)%list
             (w_sent w1) (w_clock w1)).
Proof.
  cbn [RoundTrip]. rewrite request_body_restored.
  rewrite !RoundTrip_next.
  destruct (RoundTrip (next Next) req w) as [[req' [resp err]] w1] eqn:Hdown.
  unfold link_records. destruct debug; cbn [negb].
  - unfold logRequest, emit.
    destruct err as [e|]; [by destruct resp|].
    destruct resp as [r|]; [|done].
    unfold logResponse. rewrite response_body_restored.
    unfold emit. cbn. by rewrite <- (assoc_L (++)).
  - rewrite (right_id_L [] (++)). by destruct w1.
Qed.

Lemma RoundTrip_headers (Next : option RoundTripper)
    (Headers : option (gmap string string)) (req : Request) (w : World) :
  RoundTrip (HeadersTransport Next Headers) req w
  = RoundTrip (next Next) (with_defaults Headers req) w.
Proof. cbn [RoundTrip]. by rewrite RoundTrip_next. Qed.

(** One round trip through the chain of the client: the request that the
    raw transport gets, its answer, and the world afterwards. *)
Lemma RoundTrip_chain (logger : Logger) (debug : bool)
    (Headers : option (gmap string string)) (req : Request) (w : World) :
  let req1 := with_defaults Headers req in
  let res : Result := match (net (w_sent w) req1).1 with
                      | inl r => (Some r, None)
                      | inr e => (None, Some e)
                      end in
  let now := (w_clock w + (net (w_sent w) req1).2)%nat in
  RoundTrip (HeadersTransport
               (Some (LoggingTransport (Some DefaultTransport) logger debug))
               Headers) req w
  = (req1, res,
     mkWorld (w_log w ++ link_records logger debug (default "" (req_Body req1))
                                      req1 (w_clock w) now res)%list
             (w_sent w ++ [req1])%list now).
Proof.
  intros req1 res now. rewrite RoundTrip_headers. cbn [next].
  rewrite RoundTrip_logging. cbn [next RoundTrip].
  unfold default_RoundTrip. fold req1. subst res now.
  by destruct (net (w_sent w) req1) as [[r|e] took].
Qed.

(** C2. A client built without a custom doer owns the chain header link,
    then logging link, then raw transport, whichever of the two versions of
    [createDefaultDoer] builds it: the logging link gets the request that the
    header link has worked on, in which every configured default whose name
    the request lacked is present. *)
Theorem chain_order_headers_then_logging (opts : list ClientOption)
    (req : Request) (w : World) :
  let c := (New opts).1.1 in
  let cfg := config c in
  let logging :=
    LoggingTransport (Some DefaultTransport) (Logger_of cfg) (Debug cfg) in
  CustomDoer cfg = None ->
  doer c = HttpClient (mk_http_Client (Timeout cfg)
                         (HeadersTransport (Some logging) (Headers cfg))
                         (Jar cfg))
  /\ createDefaultDoer_build cfg = doer c
  /\ RoundTrip (HeadersTransport (Some logging) (Headers cfg)) req w
     = RoundTrip logging (with_defaults (Headers cfg) req) w
  /\ forall m k v,
       Headers cfg = Some m -> m !! k = Some v ->
       agree_on (map_to_list m) k v ->
       Header_Get (req_Header req) k = "" ->
       Header_Get (req_Header (with_defaults (Headers cfg) req)) k = v.
Proof.
  intros c cfg logging Hcustom. subst c cfg logging.
  unfold New in *. destruct (buildConfig opts) as [cfg logs].
  cbn [fst snd config doer] in *. rewrite Hcustom.
  split; [done|]. split; [done|]. split; [apply RoundTrip_headers|].
  intros m k v Hm Hk Hag Habsent. unfold with_defaults. rewrite Hm. cbn.
  apply defaults_inject_absent; [by apply (range_map_elem _ m)| |done].
  eapply agree_on_perm; [|exact Hag]. symmetry. apply go_range_perm.
Qed.

(** C8. What the logging link adds to the log in one round trip, beyond what
    the links below it wrote: nothing when debug is off, whatever the
    result; when debug is on, one request record, also after a failure, and
    after it one response record exactly when the result is a response with
    no error. *)
Theorem logging_link_records (Next : option RoundTripper) (logger : Logger)
    (debug : bool) (req : Request) (w : World) :
  let '(req', res, below) := RoundTrip (next Next) req w in
  w_log (RoundTrip (LoggingTransport Next logger debug) req w).2
  = (w_log below
     ++ if debug then
          request_record logger req' (default "" (req_Body req)) (w_clock w)
                         (w_clock below)
          :: match res with
             | (Some r, None) => [response_record logger r]
             | _ => []
             end
        else [])%list.
Proof.
  rewrite RoundTrip_logging.
  by destruct (RoundTrip (next Next) req w) as [[req' res] below].
Qed.

(** ** The request executor *)

Lemma do_request_of (c : Client) (ctx : option Context)
    (method target : string) (opts : RequestConfig) (w : World)
    (req : Request) :
  request_of c ctx method target opts = Some req ->
  do c ctx method target (Some opts) w = classify (Doer_Do (doer c) req w).
Proof.
  unfold request_of, do, classify.
  destruct (resolveURL c target (Params opts)) as [u|e]; [|done].
  destruct (NewRequestWithContext ctx method (URL_String u) (Body opts))
    as [r|e]; [|done].
  intros [= <-].
  by destruct (Doer_Do (doer c) _ w) as [[resp err] w'].
Qed.

(** The doer of the package sends the request through the chain once. *)
Lemma default_doer_Do (cfg : ClientConfig) (req : Request) (w : World) :
  let req1 := with_defaults (Headers cfg) req in
  let answer := net (w_sent w) req1 in
  let now := (w_clock w + answer.2)%nat in
  Doer_Do (createDefaultDoer cfg) req w
  = (match answer.1 with
     | inl r => (Some r, None)
     | inr e => (None, Some (err_client_do (urlErrorOp (req_Method req1))
                                           (URL_String (req_URL req1)) e))
     end,
     mkWorld (w_log w
              ++ link_records (Logger_of cfg) (Debug cfg)
                   (default "" (req_Body req1)) req1 (w_clock w) now
                   (match answer.1 with
                    | inl r => (Some r, None)
                    | inr e => (None, Some e)
                    end))%list
             (w_sent w ++ [req1])%list now).
Proof.
  intros req1 answer now. cbn [Doer_Do createDefaultDoer].
  unfold http_Client_Do. cbn [hc_Transport NewTransport fold_right].
  unfold WithHeadersTransport, WithLogging.
  rewrite RoundTrip_chain. fold req1 answer now.
  by destruct (answer.1).
Qed.

(** C1. Whatever the number of retry attempts in the configuration, a
    request whose round trip fails goes to the raw transport once: [do]
    returns the failure of that single attempt as a NetworkError. *)
Theorem failing_request_is_sent_once (cfg : ClientConfig)
    (ctx : option Context) (method target : string) (opts : RequestConfig)
    (w : World) (req : Request) :
  request_of (client_of cfg) ctx method target opts = Some req ->
  (forall sent r, exists e, (net sent r).1 = inr e) ->
  exists seen cause w',
    do (client_of cfg) ctx method target (Some opts) w
    = (Returned None
         (Some (errors_NewHTTPError None (Some cause) "request failed")), w')
    /\ w_sent w' = (w_sent w ++ [seen])%list
    /\ error_kind (errors_NewHTTPError None (Some cause) "request failed")
       = Some NetworkError.
Proof.
  intros Hreq Hfail.
  rewrite (do_request_of _ _ _ _ _ _ _ Hreq). cbn [client_of doer].
  rewrite default_doer_Do.
  destruct (Hfail (w_sent w) (with_defaults (Headers cfg) req)) as [e He].
  rewrite He. cbn [classify].
  eexists _, _, _. split; [reflexivity|]. by split.
Qed.

(** C5. When the doer answers with a response and no error, [do] returns
    that response as it is: with no error when its status is below 400, and
    otherwise together with an HTTPStatusError that carries the response and
    its status code. *)
Theorem response_is_classified_by_status (c : Client) (ctx : option Context)
    (method target : string) (opts : RequestConfig) (w w' : World)
    (req : Request) (resp : Response) :
  request_of c ctx method target opts = Some req ->
  Doer_Do (doer c) req w = ((Some resp, None), w') ->
  (StatusCode resp < 400 ->
   do c ctx method target (Some opts) w = (Returned (Some resp) None, w'))
  /\ (400 <= StatusCode resp ->
      exists e,
        do c ctx method target (Some opts) w
        = (Returned (Some resp) (Some e), w')
        /\ error_kind e = Some HTTPStatusError
        /\ HTTPError_Response e = Some resp
        /\ HTTPError_StatusCode e = Some (StatusCode resp)).
Proof.
  intros Hreq Hdo. rewrite (do_request_of _ _ _ _ _ _ _ Hreq), Hdo.
  cbn [classify]. split; intros Hcode.
  - by destruct (Z.leb_spec 400 (StatusCode resp)); [lia|].
  - destruct (Z.leb_spec 400 (StatusCode resp)); [|lia].
    by eexists.
Qed.

(** The doer of the package hands the response of the raw transport on as
    it is. *)
Lemma default_doer_returns_response (cfg : ClientConfig) (req : Request)
    (w : World) (resp : Response) :
  (net (w_sent w) (with_defaults (Headers cfg) req)).1 = inl resp ->
  (Doer_Do (createDefaultDoer cfg) req w).1 = (Some resp, None).
Proof. intros H. rewrite default_doer_Do. cbn [fst]. by rewrite H. Qed.


(** C4, as amended. Without a base URL, a target that parses as a reference
    with no scheme is refused with the error of the missing base URL, and a
    target that does not parse is refused with the error of the invalid URL;
    both are ConfigurationErrors, and the world is left as it was: no request
    is sent. *)
Theorem target_without_base_is_refused (c : Client) (ctx : option Context)
    (method target : string) (opts : option RequestConfig) (w : World) :
  baseURL c = None ->
  (forall u, url_Parse target = inl u -> IsAbs u = false ->
     do c ctx method target opts w
     = (Returned None
          (Some (errors_Wrap
                   (errors_New "cannot resolve relative path without a base URL")
                   "failed to resolve URL")), w))
  /\ (forall e, url_Parse target = inr e ->
        do c ctx method target opts w
        = (Returned None
             (Some (errors_Wrap
                      (errors_Wrap (err_url e)
                                   ("invalid URL or path: " +:+ target))
                      "failed to resolve URL")), w))
  /\ ((forall u, url_Parse target = inl u -> IsAbs u = false) ->
      exists e, do c ctx method target opts w = (Returned None (Some e), w)
                /\ error_kind e = Some ConfigurationError).
Proof.
  intros Hbase. unfold do, resolveURL. rewrite Hbase.
  split; [|split].
  - intros u -> ->. done.
  - intros e ->. done.
  - intros Hrel. destruct (url_Parse target) as [u|e].
    + rewrite (Hrel u eq_refl). by eexists.
    + by eexists.
Qed.
(** ** More on the chain *)

(** Induction on a chain: a link is reached through [t.next()]. *)
Lemma RoundTripper_chain_ind (P : RoundTripper -> Prop) :
  P DefaultTransport ->
  (forall Next Headers, P (next Next) -> P (HeadersTransport Next Headers)) ->
  (forall Next logger debug,
     P (next Next) -> P (LoggingTransport Next logger debug)) ->
  forall t, P t.
Proof.
  intros Hraw Hheaders Hlogging. fix IH 1.
  intros [|Next Headers|Next logger debug].
  - exact Hraw.
  - apply Hheaders. destruct Next as [t|]; [apply IH|exact Hraw].
  - apply Hlogging. destruct Next as [t|]; [apply IH|exact Hraw].
Qed.

(** The shape of one round trip through any chain. *)
Lemma RoundTrip_shape (t : RoundTripper) (req : Request) (w : World) :
  exists req' records,
    RoundTrip t req w
    = (req', answer_pair (net (w_sent w) req').1,
       mkWorld (w_log w ++ records)%list (w_sent w ++ [req'])%list
               (w_clock w + (net (w_sent w) req').2)%nat)
    /\ same_but_headers req' req.
Proof.
  revert req w. induction t as [|Next Headers IH|Next logger debug IH]
    using RoundTripper_chain_ind; intros req w.
  - exists req, []. split; [|by repeat split].
    cbn [RoundTrip]. unfold default_RoundTrip.
    rewrite (right_id_L [] (++)).
    by destruct (net (w_sent w) req) as [[r|e] took].
  - rewrite RoundTrip_headers.
    destruct (IH (with_defaults Headers req) w) as (req' & records & -> & Hs).
    exists req', records. split; [done|].
    unfold same_but_headers, with_defaults in *. by destruct req.
  - rewrite RoundTrip_logging.
    destruct (IH req w) as (req' & records & -> & Hs).
    eexists req', _. split; [|done]. cbn [w_log w_sent w_clock].
    by rewrite <- (assoc_L (++)).
Qed.

(** A header that is present with a first value that is not empty goes
    through any chain as it is, down to the raw transport. *)
Lemma chain_keeps_present_header (t : RoundTripper) (req : Request)
    (w : World) (k : string) :
  Header_Get (req_Header req) k <> "" ->
  exists seen,
    w_sent (RoundTrip t req w).2 = (w_sent w ++ [seen])%list
    /\ Header_Get (req_Header seen) k = Header_Get (req_Header req) k.
Proof.
  revert req w. induction t as [|Next Headers IH|Next logger debug IH]
    using RoundTripper_chain_ind; intros req w Hne.
  - exists req. cbn [RoundTrip]. unfold default_RoundTrip.
    by destruct (net (w_sent w) req) as [[r|e] took].
  - rewrite RoundTrip_headers.
    assert (Header_Get (req_Header (with_defaults Headers req)) k
            = Header_Get (req_Header req) k) as Hkeep.
    { unfold with_defaults. destruct req as [? ? ? h ? ?]; cbn in *.
      by apply defaults_keep_present. }
    destruct (IH (with_defaults Headers req) w) as (seen & Hsent & Hget);
      [by rewrite Hkeep|].
    exists seen. by rewrite Hget.
  - rewrite RoundTrip_logging. destruct (IH req w Hne) as (seen & Hsent & Hget).
    exists seen.
    by destruct (RoundTrip (next Next) req w) as [[req' res] below].
Qed.

(** C6, as amended, at the level of the chain. A per-request header with a
    value that is not empty, and whose name shares its canonical form with no
    per-request header of another value, is on the request that [do] makes
    with the per-request value; and any chain of header and logging links,
    whatever its defaults are and however they are cased, hands a request
    that enters it with that value to the raw transport with that value.
    What [http.Client.Do] does to the request between [do] and the chain is
    no part of the statement. *)
Theorem request_header_overrides_default (c : Client)
    (ctx : option Context) (method target : string) (opts : RequestConfig)
    (req : Request) (m : gmap string string) (k v : string) :
  request_of c ctx method target opts = Some req ->
  rc_Headers opts = Some m ->
  m !! k = Some v ->
  v <> "" ->
  agree_on (map_to_list m) k v ->
  Header_Get (req_Header req) k = v
  /\ forall (t : RoundTripper) (entering : Request) (w : World),
       Header_Get (req_Header entering) k = v ->
       exists seen,
         w_sent (RoundTrip t entering w).2 = (w_sent w ++ [seen])%list
         /\ Header_Get (req_Header seen) k = v.
Proof.
  intros Hreq Hm Hk Hv Hag. split.
  - unfold request_of in Hreq.
    destruct (resolveURL _ target (Params opts)) as [u|e]; [|done].
    destruct (NewRequestWithContext ctx method (URL_String u) (Body opts))
      as [r|e]; [|done].
    injection Hreq as <-. unfold apply_request_headers. rewrite Hm.
    destruct r; cbn.
    apply overrides_get; [by apply (range_map_elem _ m)|].
    eapply agree_on_perm; [|exact Hag]. symmetry. apply go_range_perm.
  - intros t entering w Hget.
    destruct (chain_keeps_present_header t entering w k) as (seen & Hs & Hg);
      [by rewrite Hget|].
    exists seen. by rewrite Hg.
Qed.

(** X4. Whatever links a chain is made of, one round trip hands exactly one
    request to the raw transport, and that request has the context, method,
    URL, body and host of the request that entered the chain. *)
Theorem every_chain_sends_once (t : RoundTripper) (req : Request) (w : World) :
  exists req',
    w_sent (RoundTrip t req w).2 = (w_sent w ++ [req'])%list
    /\ (RoundTrip t req w).1.1 = req'
    /\ same_but_headers req' req.
Proof.
  destruct (RoundTrip_shape t req w) as (req' & records & -> & Hs).
  by exists req'.
Qed.

(** X5. The result of a round trip through any chain is the answer of the
    raw transport to the request it was handed: no link changes the response
    or the error, and the log of calls only grows. *)
Theorem every_chain_returns_transport_answer (t : RoundTripper)
    (req : Request) (w : World) :
  let '(req', res, w') := RoundTrip t req w in
  res = answer_pair (net (w_sent w) req').1
  /\ w_clock w' = (w_clock w + (net (w_sent w) req').2)%nat
  /\ exists records, w_log w' = (w_log w ++ records)%list.
Proof.
  destruct (RoundTrip_shape t req w) as (req' & records & -> & _).
  cbn. split; [done|]. split; [done|]. by exists records.
Qed.

(** X6. The logging link is transparent: with debug on or off, the request
    that comes back, the result, the requests sent and the clock are those of
    the link below it; with debug off the whole world is. *)
Theorem logging_link_is_transparent (Next : option RoundTripper)
    (logger : Logger) (debug : bool) (req : Request) (w : World) :
  let above := RoundTrip (LoggingTransport Next logger debug) req w in
  let below := RoundTrip (next Next) req w in
  above.1 = below.1
  /\ w_sent above.2 = w_sent below.2
  /\ w_clock above.2 = w_clock below.2
  /\ (debug = false -> above = below).
Proof.
  cbv zeta. rewrite RoundTrip_logging.
  destruct (RoundTrip (next Next) req w) as [[req' res] w1].
  cbn. repeat split. intros ->. unfold link_records.
  rewrite (right_id_L [] (++)). by destruct w1.
Qed.

(** The default loop leaves the entry of a header that is present as it
    is, values after the first included. *)
Lemma defaults_entry_kept (l : list (string * string)) (h : Header)
    (k : string) :
  Header_Get h k <> "" ->
  fold_left apply_default l h !! CanonicalMIMEHeaderKey k
  = h !! CanonicalMIMEHeaderKey k.
Proof.
  revert h. induction l as [|x l IH]; intros h Hne; [done|].
  cbn [fold_left]. unfold apply_default at 2.
  destruct (String.eqb_spec (Header_Get h x.1) "") as [He|He];
    [|by apply IH].
  assert (CanonicalMIMEHeaderKey x.1 <> CanonicalMIMEHeaderKey k) as Hc.
  { intros Hc. by rewrite (Header_Get_canonical h _ _ Hc) in He. }
  rewrite IH.
  - unfold Header_Set. by rewrite lookup_insert_ne.
  - by rewrite Header_Get_Set_other.
Qed.

(** The default loop writes under the canonical names of its defaults
    only. *)
Lemma defaults_entry_foreign (l : list (string * string)) (h : Header)
    (key : string) :
  (forall k v, (k, v) ∈ l -> CanonicalMIMEHeaderKey k <> key) ->
  fold_left apply_default l h !! key = h !! key.
Proof.
  revert h. induction l as [|x l IH]; intros h Hl; [done|].
  cbn [fold_left]. rewrite IH.
  - unfold apply_default. destruct (String.eqb _ _); [|done].
    unfold Header_Set. rewrite lookup_insert_ne; [done|].
    apply (Hl x.1 x.2). destruct x. by left.
  - intros k v Hin. apply (Hl k v). by right.
Qed.

(** X7. The header link hands the request on after touching its header map
    only, and there only entries that it may fill: a header that is present
    with a non-empty first value keeps its entry, and so does every entry
    whose name is the canonical form of no configured default. *)
Theorem header_link_fills_gaps_only (Next : option RoundTripper)
    (Headers : option (gmap string string)) (req : Request) (w : World) :
  let req1 := with_defaults Headers req in
  RoundTrip (HeadersTransport Next Headers) req w
  = RoundTrip (next Next) req1 w
  /\ same_but_headers req1 req
  /\ (forall k, Header_Get (req_Header req) k <> "" ->
        req_Header req1 !! CanonicalMIMEHeaderKey k
        = req_Header req !! CanonicalMIMEHeaderKey k)
  /\ (forall key,
        (forall m k v, Headers = Some m -> m !! k = Some v ->
           CanonicalMIMEHeaderKey k <> key) ->
        req_Header req1 !! key = req_Header req !! key).
Proof.
  cbv zeta. split; [apply RoundTrip_headers|].
  split; [by destruct req|]. unfold with_defaults.
  split.
  - intros k Hk. destruct req; cbn in *. by apply defaults_entry_kept.
  - intros key Hkey. destruct req as [? ? ? h ? ?]; cbn.
    apply defaults_entry_foreign. intros k v Hin.
    destruct Headers as [m|]; [|by apply elem_of_nil in Hin].
    apply (Hkey m k v eq_refl).
    by apply (range_map_elem site_header_defaults m).
Qed.

(** X8. When several defaults share a canonical name, the header link gives
    a request that lacks the header the value of the first of them, in the
    order of its loop over the map, that is not empty. *)
Theorem first_default_in_range_order_wins
    (Headers : option (gmap string string)) (req : Request)
    (before after : list (string * string)) (k k' v' : string) :
  range_map site_header_defaults Headers = (before ++ (k', v') :: after)%list ->
  CanonicalMIMEHeaderKey k' = CanonicalMIMEHeaderKey k ->
  v' <> "" ->
  (forall k0 v0, (k0, v0) ∈ before ->
     CanonicalMIMEHeaderKey k0 = CanonicalMIMEHeaderKey k -> v0 = "") ->
  Header_Get (req_Header req) k = "" ->
  Header_Get (req_Header (with_defaults Headers req)) k = v'.
Proof.
  intros Hrange Hc Hv Hbefore Habsent. unfold with_defaults.
  destruct req as [? ? ? h ? ?]; cbn in *. rewrite Hrange, fold_left_app.
  cbn [fold_left].
  assert (Header_Get (fold_left apply_default before h) k = "") as Hb.
  { apply defaults_keep_agreed; [|done].
    intros k0 v0 Hin Hc0. by apply (Hbefore k0 v0). }
  set (hb := fold_left apply_default before h) in *.
  assert (Header_Get (apply_default hb (k', v')) k = v') as Hset.
  { unfold apply_default. cbn [fst snd].
    rewrite (Header_Get_canonical hb _ _ Hc), Hb. cbn.
    by apply Header_Get_Set_same. }
  rewrite defaults_keep_present; rewrite Hset; done.
Qed.

(** ** More on the request executor *)

(** X9. What a caller of [do] can rely on, with any doer: a nil error comes
    with a response whose status is below 400; a response that comes with an
    error has a status of 400 or more, and the error is the status error made
    from that very response; and a nil response always comes with an
    error. *)
Theorem do_outcome_is_consistent (c : Client) (ctx : option Context)
    (method target : string) (opts : option RequestConfig) (w w' : World)
    (resp : option Response) (err : option error) :
  do c ctx method target opts w = (Returned resp err, w') ->
  (err = None -> exists r, resp = Some r /\ StatusCode r < 400)
  /\ (forall r e, resp = Some r -> err = Some e ->
        400 <= StatusCode r
        /\ e = errors_NewHTTPError (Some r) None
                                   "request returned error status")
  /\ (resp = None -> exists e, err = Some e).
Proof.
  assert (forall e : error,
            (Some e = None -> exists r, @None Response = Some r
                                        /\ StatusCode r < 400)
            /\ (forall r e0, @None Response = Some r -> Some e = Some e0 ->
                  400 <= StatusCode r
                  /\ e0 = errors_NewHTTPError (Some r) None
                                              "request returned error status")
            /\ (@None Response = None -> exists e0, Some e = Some e0))
    as Hfailed.
  { intros e. split; [done|]. split; [done|]. intros _. by exists e. }
  unfold do.
  destruct (resolveURL c target _) as [u|e].
  2:{ intros Hdo; inversion Hdo; subst. apply Hfailed. }
  destruct (NewRequestWithContext ctx method _ _) as [req|e].
  2:{ intros Hdo; inversion Hdo; subst. apply Hfailed. }
  destruct (Doer_Do (doer c) _ w) as [[rr re] w1].
  destruct re as [e|].
  { intros Hdo; inversion Hdo; subst. apply Hfailed. }
  destruct rr as [r|]; [|done].
  destruct (Z.leb_spec 400 (StatusCode r)); intros Hdo; inversion Hdo; subst.
  - split; [done|]. split; [|done]. by intros r' e' [= <-] [= <-].
  - split; [intros _; by exists r|]. split; [|done]. by intros r' e' _ [=].
Qed.

(** X10. With the doer that the package builds, [do] never panics: every
    call returns a pair. *)
Theorem do_with_package_doer_returns (cfg : ClientConfig)
    (ctx : option Context) (method target : string)
    (opts : option RequestConfig) (w : World) :
  exists resp err,
    (do (client_of cfg) ctx method target opts w).1 = Returned resp err.
Proof.
  unfold do.
  destruct (resolveURL _ target _) as [u|e]; [|by eexists _, _].
  destruct (NewRequestWithContext ctx method _ _) as [req|e];
    [|by eexists _, _].
  cbn [client_of doer]. rewrite default_doer_Do.
  destruct (net _ _).1 as [r|e]; [|by eexists _, _].
  destruct (400 <=? StatusCode r); by eexists _, _.
Qed.

(** X11. A custom doer that returns a nil response with a nil error makes
    [do] panic when it reads the status code. *)
Theorem nil_result_of_custom_doer_panics (c : Client) (ctx : option Context)
    (method target : string) (opts : RequestConfig) (w : World)
    (req : Request) (f : Request -> Result) :
  doer c = CustomDoerOf f ->
  request_of c ctx method target opts = Some req ->
  f req = (None, None) ->
  do c ctx method target (Some opts) w = (Panicked, w).
Proof.
  intros Hdoer Hreq Hnil. rewrite (do_request_of _ _ _ _ _ _ _ Hreq).
  rewrite Hdoer. cbn [Doer_Do]. by rewrite Hnil.
Qed.

(** X12. [do] reaches the doer only with a request in hand. When the URL
    does not resolve, it returns a nil response with that error, wrapped;
    when the URL resolves and the method is not empty and no valid token, or
    the context is nil, it returns a nil response with the wrapped error of
    request construction. In both cases the world stays as it was, whatever
    the doer of the client is: nothing is sent and nothing is logged. *)
Theorem do_fails_before_the_doer (c : Client) (ctx : option Context)
    (method target : string) (opts : option RequestConfig) (w : World) :
  let params := Params (default (mkRequestConfig None None None) opts) in
  (forall e, resolveURL c target params = inr e ->
     do c ctx method target opts w
     = (Returned None (Some (errors_Wrap e "failed to resolve URL")), w))
  /\ (forall u, resolveURL c target params = inl u ->
        (method <> "" /\ validMethod method = false) \/ ctx = None ->
        exists cause,
          do c ctx method target opts w
          = (Returned None
               (Some (errors_Wrap cause "failed to create request")), w)).
Proof.
  cbv zeta. unfold do.
  assert (match opts with
          | Some o => o
          | None => mkRequestConfig None None None
          end = default (mkRequestConfig None None None) opts) as ->
    by by destruct opts.
  split.
  - by intros e ->.
  - intros u -> Hbad. unfold NewRequestWithContext.
    destruct Hbad as [[Hne Hinvalid] | ->].
    + apply String.eqb_neq in Hne. rewrite Hne, Hinvalid. by eexists.
    + destruct (negb (validMethod _)); by eexists.
Qed.

(** X13. A nil context stops [Get] and [Post] after the URL is resolved:
    the error of request construction comes back and nothing is sent. *)
Theorem nil_context_is_refused (c : Client) (target : string)
    (opts : RequestConfig) (w : World) (u : URL) :
  resolveURL c target (Params opts) = inl u ->
  let refused :=
    (Returned None
       (Some (errors_Wrap (err_http "net/http: nil Context")
                          "failed to create request")), w) in
  Client_Get c None target (Some opts) w = refused
  /\ Client_Post c None target (Some opts) w = refused.
Proof.
  intros Hu refused. unfold Client_Get, Client_Post, do. by rewrite Hu.
Qed.




End Pipeline.

(** ** The configuration builder *)

(** C7. Applying the headers option for the same map twice in a row leaves
    the draft, and so its header map, as one application leaves it. *)
Theorem WithHeaders_idempotent (H : option (gmap string string))
    (cfg : ClientConfig) :
  Headers (apply_options [WithHeaders H; WithHeaders H] cfg).1
  = Headers (apply_options [WithHeaders H] cfg).1
  /\ apply_options [WithHeaders H; WithHeaders H] cfg
     = apply_options [WithHeaders H] cfg.
Proof.
  assert (apply_options [WithHeaders H; WithHeaders H] cfg
          = apply_options [WithHeaders H] cfg) as Heq; [|by rewrite Heq].
  cbn [apply_options]. unfold WithHeaders.
  destruct (map_len H =? 0)%nat eqn:Hlen; [done|].
  cbn [Headers app].
  by rewrite (assoc_L (∪)), (idemp_L (∪)).
Qed.

Lemma apply_options_keeps {A : Type} (f : ClientConfig -> A)
    (opts : list ClientOption) (cfg : ClientConfig) :
  Forall (keeps f) opts -> f (apply_options opts cfg).1 = f cfg.
Proof.
  intros Hall. revert cfg.
  induction Hall as [|opt opts Hopt _ IH]; intros cfg; [done|].
  cbn [apply_options]. specialize (Hopt cfg).
  destruct (opt cfg) as [cfg1 l1]. specialize (IH cfg1).
  destruct (apply_options opts cfg1) as [cfg2 l2]. cbn in *. congruence.
Qed.

(** An option refuses its argument: the draft stays as it was. *)
Lemma invalid_call_discarded (call : OptionCall) (cfg : ClientConfig) :
  invalid_call call = true -> (option_of call cfg).1 = cfg.
Proof.
  destruct call as [d|s|n|h|[j|]|[l|]|b|[d|]]; cbn; try done.
  - intros Hd. unfold WithTimeout.
    by destruct (Z.ltb_spec 0 d); [apply Z.leb_le in Hd; lia|].
  - unfold WithBaseURL. destruct (String.eqb s ""); [done|].
    by destruct (normalizeBaseURL s).
  - intros Hn. unfold WithRetryAttempts.
    by destruct (Z.leb_spec 0 n); [apply Z.ltb_lt in Hn; lia|].
  - intros Hh. unfold WithHeaders. by rewrite Hh.
Qed.

Lemma invalid_calls_filtered (calls : list OptionCall) (cfg : ClientConfig) :
  (apply_options (option_of <$> calls) cfg).1
  = (apply_options
       (option_of <$> List.filter (fun c => negb (invalid_call c)) calls)
       cfg).1.
Proof.
  revert cfg. induction calls as [|call calls IH]; intros cfg; [done|].
  cbn [fmap list_fmap List.filter apply_options].
  destruct (invalid_call call) eqn:Hinv; cbn [negb].
  - pose proof (invalid_call_discarded call cfg Hinv) as Hd.
    destruct (option_of call cfg) as [cfg1 l1]. cbn in Hd. subst cfg1.
    specialize (IH cfg). fold (@fmap list _) in *.
    destruct (apply_options (option_of <$> calls) cfg) as [cfg2 l2].
    exact IH.
  - cbn [fmap list_fmap apply_options].
    destruct (option_of call cfg) as [cfg1 l1].
    specialize (IH cfg1). fold (@fmap list _) in *.
    destruct (apply_options (option_of <$> calls) cfg1) as [cfg2 l2].
    destruct (apply_options _ cfg1) as [cfg3 l3]. exact IH.
Qed.

Lemma keeps_field {A : Type} (f : ClientConfig -> A) (calls : list OptionCall)
    (cfg : ClientConfig) :
  (forall call, call ∈ calls -> keeps f (option_of call)) ->
  f (apply_options (option_of <$> calls) cfg).1 = f cfg.
Proof.
  intros H. apply apply_options_keeps, Forall_fmap, Forall_forall.
  intros call Hin. by apply H.
Qed.

(** Case analysis on a call of an option: the calls that cannot change the
    field at hand are closed, the others are left. *)
Ltac option_cases call :=
  destruct call as [d|s|n|h|[j|]|[l|]|b|[d|]]; cbn;
  try done;
  try (unfold WithTimeout; by destruct (0 <? d));
  try (unfold WithRetryAttempts; by destruct (0 <=? n));
  try (unfold WithHeaders; by destruct (map_len h =? 0)%nat);
  try (unfold WithBaseURL; destruct (String.eqb s ""); [done|];
       by destruct (normalizeBaseURL s)).

(** The base URL option refuses a text that does not parse or has no
    scheme. *)
Ltac refused_base_URL H Hin :=
  unfold WithBaseURL;
  match goal with
  | |- context [String.eqb ?s ""] =>
      destruct (String.eqb s ""); [done|];
      specialize (H s Hin); unfold normalizeBaseURL;
      destruct (url_Parse s) as [u|e]; [|done]; rewrite H
  end.

(** C9. Building a client never returns an error. A call that an option
    refuses (a timeout that is not positive, a negative retry count, a base
    URL that does not parse or has no scheme, an empty header map, a nil
    logger, jar or doer) leaves the draft as it was, so the configuration is
    the one that the accepted calls alone would build, and a field that no
    accepted call sets keeps its default. *)
Theorem New_never_fails_and_keeps_defaults (calls : list OptionCall) :
  let built := New (option_of <$> calls) in
  let cfg := config built.1.1 in
  built.1.2 = None
  /\ (forall call draft,
        invalid_call call = true -> (option_of call draft).1 = draft)
  /\ cfg = (buildConfig
              (option_of
                 <$> List.filter (fun c => negb (invalid_call c)) calls)).1
  /\ ((forall d, CallWithTimeout d ∈ calls -> d <= 0) ->
      Timeout cfg = 10 * 1000000000)
  /\ ((forall n, CallWithRetryAttempts n ∈ calls -> n < 0) ->
      RetryAttempts cfg = 3)
  /\ ((forall s, CallWithBaseURL s ∈ calls ->
         match url_Parse s with
         | inl u => IsAbs u = false
         | inr _ => True
         end) ->
      BaseURL cfg = None /\ baseURL built.1.1 = None)
  /\ ((forall l, CallWithLogger l ∈ calls -> l = None) ->
      Logger_of cfg = NoOp)
  /\ ((forall h, CallWithHeaders h ∈ calls -> map_len h = 0%nat) ->
      Headers cfg = Some {["User-Agent" := defaultUserAgent]}).
Proof.
  intros built cfg. subst built cfg. unfold New, buildConfig.
  pose proof (invalid_calls_filtered calls default_config) as Hfilter.
  destruct (apply_options (option_of <$> calls) default_config)
    as [cfg logs] eqn:Hbuild.
  cbn [fst snd config baseURL] in *.
  split; [done|]. split; [apply invalid_call_discarded|].
  split; [done|].
  assert (forall A (f : ClientConfig -> A),
            (forall call, call ∈ calls -> keeps f (option_of call)) ->
            f cfg = f default_config) as Hkeep.
  { intros A f H.
    pose proof (keeps_field f calls default_config H) as Hk.
    by rewrite Hbuild in Hk. }
  repeat split.
  - intros H. apply (Hkeep _ Timeout). intros call Hin draft.
    option_cases call.
    unfold WithTimeout. specialize (H _ Hin).
    by destruct (Z.ltb_spec 0 d); [lia|].
  - intros H. apply (Hkeep _ RetryAttempts). intros call Hin draft.
    option_cases call.
    unfold WithRetryAttempts. specialize (H _ Hin).
    by destruct (Z.leb_spec 0 n); [lia|].
  - apply (Hkeep _ BaseURL). intros call Hin draft.
    option_cases call. by refused_base_URL H Hin.
  - apply (Hkeep _ BaseURL). intros call Hin draft.
    option_cases call. by refused_base_URL H Hin.
  - intros H. apply (Hkeep _ Logger_of). intros call Hin draft.
    option_cases call. by specialize (H _ Hin).
  - intros H. apply (Hkeep _ Headers). intros call Hin draft.
    option_cases call. unfold WithHeaders. by rewrite (H _ Hin).
Qed.

(** ** Query parameters *)

Lemma add_values_spec (q : Values) (k : string) (vs : list string) :
  add_values q (k, vs)
  = match vs with
    | [] => q
    | _ => <[k := (default [] (q !! k) ++ vs)%list]> q
    end.
Proof.
  unfold add_values. cbn [fst snd]. revert q.
  induction vs as [|v vs IH]; intros q; [done|].
  cbn [fold_left]. rewrite IH. unfold Values_Add.
  destruct vs as [|v' vs]; [done|].
  rewrite lookup_insert_eq, insert_insert_eq. cbv [id default from_option].
  by rewrite <- app_assoc.
Qed.

(** The values of two different keys can be added in either order. *)
Lemma add_values_comm (q : Values) (x y : string * list string) :
  x.1 <> y.1 ->
  add_values (add_values q x) y = add_values (add_values q y) x.
Proof.
  destruct x as [k1 vs1], y as [k2 vs2]. cbn [fst]. intros Hne.
  rewrite !add_values_spec.
  destruct vs1 as [|a vs1], vs2 as [|b vs2]; try done.
  rewrite !lookup_insert_ne by done. by apply insert_insert_ne.
Qed.

(** The loop of [addQueryParams] builds the same values in every order of
    the keys. *)
Lemma fold_add_values_perm (l l' : list (string * list string)) (q : Values) :
  l ≡ₚ l' -> NoDup l.*1 ->
  fold_left add_values l q = fold_left add_values l' q.
Proof.
  intros Hperm. revert q.
  induction Hperm as [|x l l' _ IH|x y l|l l' l'' Hp1 IH1 Hp2 IH2];
    intros q Hnd.
  - done.
  - cbn [fold_left]. apply IH. by apply NoDup_cons in Hnd as [_ ?].
  - cbn [fold_left]. f_equal. apply add_values_comm.
    cbn in Hnd. apply NoDup_cons in Hnd as [Hin _].
    intros Heq. apply Hin. rewrite Heq. by left.
  - rewrite IH1 by done. apply IH2. by rewrite <- Hp1.
Qed.

Lemma addQueryParams_any_order
    (go_range : forall V : Type,
        range_site -> gmap string V -> list (string * V))
    (go_range_perm : forall V site (m : gmap string V),
        go_range V site m ≡ₚ map_to_list m)
    (u : URL) (params : option Values) :
  addQueryParams go_range u params
  = addQueryParams range_in_list_order u params.
Proof.
  destruct params as [m|]; [|done]. unfold addQueryParams.
  do 2 f_equal. unfold range_map, range_in_list_order.
  apply fold_add_values_perm; [apply go_range_perm|].
  rewrite go_range_perm. apply NoDup_fst_map_to_list.
Qed.

Lemma resolveURL_any_order
    (go_range : forall V : Type,
        range_site -> gmap string V -> list (string * V))
    (go_range_perm : forall V site (m : gmap string V),
        go_range V site m ≡ₚ map_to_list m)
    (c : Client) (target : string) (params : option Values) :
  resolveURL go_range c target params
  = resolveURL range_in_list_order c target params.
Proof.
  unfold resolveURL. destruct (url_Parse target) as [u|e]; [|done].
  destruct (IsAbs u); [by rewrite addQueryParams_any_order|].
  destruct (baseURL c); [|done]. by rewrite addQueryParams_any_order.
Qed.

(** C3. With the base URL https://example.com/api, the target /users and the
    query parameters page=1 and limit=10, the client resolves the target to
    https://example.com/users?limit=10&page=1: the path of the target, which
    starts with a slash, takes the place of the path of the base URL. *)
Theorem rooted_target_replaces_base_path
    (go_range : forall V : Type,
        range_site -> gmap string V -> list (string * V))
    (go_range_perm : forall V site (m : gmap string V),
        go_range V site m ≡ₚ map_to_list m) :
  let c := (New [WithBaseURL "https://example.com/api"]).1.1 in
  let params : Values := <["page" := ["1"]]> (<["limit" := ["10"]]> ∅) in
  (URL_String <$> baseURL c) = Some "https://example.com/api"
  /\ exists u,
       resolveURL go_range c "/users" (Some params) = inl u
       /\ URL_String u = "https://example.com/users?limit=10&page=1"
       /\ exists req,
            request_of go_range c background MethodGet "/users"
                       (mkRequestConfig (Some params) None None) = Some req
            /\ URL_String (req_URL req)
               = "https://example.com/users?limit=10&page=1".
Proof.
  intros c params. split; [by vm_compute|].
  unfold request_of. cbn [Params Body rc_Headers].
  rewrite (resolveURL_any_order go_range go_range_perm).
  assert (resolveURL range_in_list_order c "/users" (Some params)
          = inl (mkURL "https" "" None "example.com" "/users" "" false false
                       "limit=10&page=1" "" "")) as ->; [by vm_compute|].
  eexists. split; [reflexivity|]. split; [by vm_compute|].
  eexists. split; [by vm_compute|]. by vm_compute.
Qed.

(** ** Resolving the empty target *)

Lemma append_cons (x : ascii) (a b : string) :
  String x a +:+ b = String x (a +:+ b).
Proof. reflexivity. Qed.

Lemma append_assoc (a b c : string) : (a +:+ b) +:+ c = a +:+ (b +:+ c).
Proof.
  induction a as [|x a IH]; [done|]. by rewrite !append_cons, IH.
Qed.

Lemma append_empty_r (a : string) : a +:+ "" = a.
Proof. induction a as [|x a IH]; [done|]. by rewrite append_cons, IH. Qed.

Lemma slashes_Split (s : string) :
  slashes (strings_Split s "/") = "/" +:+ s.
Proof.
  induction s as [|c s IH]; [done|].
  cbn [strings_Split]. destruct (Ascii.eqb_spec c "/") as [->|Hc].
  - cbn [slashes]. by rewrite IH.
  - destruct (strings_Split s "/") as [|seg segs]; [done|].
    cbn [slashes] in *. rewrite !append_cons in *.
    injection IH as IH. change ("" +:+ ?x) with x in *.
    by rewrite IH.
Qed.

Lemma resolvePath_step_plain (dst elem : string) :
  not_dot elem = true ->
  resolvePath_step (dst, false) elem = (dst +:+ "/" +:+ elem, false).
Proof.
  unfold not_dot, resolvePath_step. intros H.
  apply negb_true_iff, orb_false_iff in H as [-> ->].
  by rewrite append_assoc.
Qed.

Lemma resolvePath_fold_plain (elems : list string) (dst : string) :
  forallb not_dot elems = true ->
  fold_left resolvePath_step elems (dst, false)
  = (dst +:+ slashes elems, false).
Proof.
  revert dst. induction elems as [|e es IH]; intros dst H.
  - cbn. by rewrite append_empty_r.
  - cbn [forallb] in H. apply andb_true_iff in H as [He Hes].
    cbn [fold_left slashes]. rewrite resolvePath_step_plain by done.
    rewrite IH by done. by rewrite !append_assoc.
Qed.

Lemma last_not_dot (elems : list string) :
  forallb not_dot elems = true -> not_dot (List.last elems "") = true.
Proof.
  induction elems as [|e es IH]; [done|].
  cbn [forallb]. intros H. apply andb_true_iff in H as [He Hes].
  destruct es as [|e' es]; [done|]. by apply IH.
Qed.

(** [resolvePath] returns a clean path as it is. *)
Lemma resolvePath_clean (p : string) :
  clean_path p = true -> resolvePath p "" = p.
Proof.
  destruct p as [|c rest]; [done|]. cbn [clean_path].
  intros H. apply andb_true_iff in H as [Hc Hrest].
  apply Ascii.eqb_eq in Hc. subst c.
  unfold resolvePath. cbn [String.eqb Ascii.eqb Bool.eqb strings_Split].
  cbn [fold_left]. 
  change (resolvePath_step ("/", true) "") with ("/", false).
  rewrite resolvePath_fold_plain by done.
  rewrite slashes_Split.
  assert (not_dot (List.last ("" :: strings_Split rest "/") "") = true) as Hl.
  { apply last_not_dot. cbn [forallb]. by rewrite Hrest. }
  unfold not_dot in Hl. apply negb_true_iff in Hl. rewrite Hl.
  done.
Qed.

(** Escaping a path and unescaping it gives the path back. *)
Lemma unescape_check_escape_byte (c : ascii) (rest : string) :
  unescape_check (escape_byte c encodePath +:+ rest) encodePath
  = unescape_check rest encodePath.
Proof. by destruct c as [[] [] [] [] [] [] [] []]. Qed.

Lemma unescape_decode_escape_byte (c : ascii) (rest : string) :
  unescape_decode (escape_byte c encodePath +:+ rest) encodePath
  = String c (unescape_decode rest encodePath).
Proof. by destruct c as [[] [] [] [] [] [] [] []]. Qed.

Lemma unescape_escape_path (s : string) :
  unescape (escape s encodePath) encodePath = inl s.
Proof.
  unfold unescape.
  assert (unescape_check (escape s encodePath) encodePath = None) as ->.
  { induction s as [|c s IH]; [done|].
    cbn [escape]. by rewrite unescape_check_escape_byte. }
  f_equal. induction s as [|c s IH]; [done|].
  cbn [escape]. by rewrite unescape_decode_escape_byte, IH.
Qed.

(** Resolving the empty reference against an opaque URL. *)
Lemma ResolveReference_empty_opaque (base : URL) :
  OmitHost base = false -> ForceQuery base = false -> opaque_form base ->
  ResolveReference base empty_URL = base.
Proof.
  intros Homit Hforce (Hopaque & Huser & Hhost & Hpath & Hraw).
  unfold ResolveReference.
  cbn [empty_URL Scheme Opaque User Host Path RawPath OmitHost ForceQuery
       RawQuery Fragment RawFragment String.eqb negb orb andb].
  apply String.eqb_neq in Hopaque. rewrite Hopaque. cbn [negb].
  destruct base; cbn in *; by subst.
Qed.

(** Resolving the empty reference against a hierarchical URL with a clean
    path. *)
Lemma ResolveReference_empty_hierarchical (base : URL) :
  OmitHost base = false -> ForceQuery base = false ->
  hierarchical_form base ->
  ResolveReference base empty_URL = base.
Proof.
  intros Homit Hforce (Hopaque & Hraw & Hclean).
  unfold ResolveReference.
  cbn [empty_URL Scheme Opaque User Host Path RawPath OmitHost ForceQuery
       RawQuery Fragment RawFragment String.eqb negb orb andb].
  rewrite Hopaque. cbn [String.eqb negb andb].
  change (EscapedPath empty_URL) with "".
  rewrite (resolvePath_clean _ Hclean).
  unfold setPath_ignore, setPath.
  destruct Hraw as [Hraw|(Hvalid & Hun & Hne)].
  - assert (EscapedPath base = escape (Path base) encodePath) as Hesc.
    { unfold EscapedPath in *. rewrite Hraw in *.
      cbn [String.eqb negb andb] in *.
      destruct (String.eqb_spec (Path base) "*") as [Hstar|]; [|done].
      by vm_compute in Hclean. }
    rewrite Hesc, unescape_escape_path, String.eqb_refl.
    destruct base; cbn in *; by subst.
  - assert (EscapedPath base = RawPath base) as Hesc.
    { unfold EscapedPath. rewrite Hvalid, Hun, String.eqb_refl.
      destruct (String.eqb_spec (RawPath base) "") as [Hempty|]; [|done].
      rewrite Hempty in Hun, Hne.
      change (unescape "" encodePath) with (inl (B := url_err) "") in Hun.
      injection Hun as Hpath. rewrite <- Hpath in Hne. by destruct Hne. }
    rewrite Hesc, Hun.
    assert (String.eqb (RawPath base) (escape (Path base) encodePath) = false)
      as -> by (apply String.eqb_neq; congruence).
    destruct base; cbn in *; by subst.
Qed.

(** C10, as amended. For a base URL with a host that is not omitted and no
    bare question mark, that is opaque, or hierarchical with an escaped path
    that is empty or rooted and free of dot segments and a raw path as
    [setPath] leaves it, the empty target resolves to the base URL itself,
    with no error, when the query parameters are nil, or hold no value and
    the query of the base URL is written the way [Encode] writes it; in
    every iteration order of the parameter map. *)
Theorem empty_target_resolves_to_clean_base
    (go_range : forall V : Type,
        range_site -> gmap string V -> list (string * V))
    (go_range_perm : forall V site (m : gmap string V),
        go_range V site m ≡ₚ map_to_list m)
    (c : Client) (base : URL) (params : option Values) :
  baseURL c = Some base ->
  OmitHost base = false ->
  ForceQuery base = false ->
  opaque_form base \/ hierarchical_form base ->
  adds_no_value params base ->
  resolveURL go_range c "" params = inl base.
Proof.
  intros Hbase Homit Hforce Hform Hparams.
  unfold resolveURL.
  change (url_Parse "") with (inl (B := url_Error) empty_URL).
  cbn [IsAbs empty_URL Scheme String.eqb negb]. rewrite Hbase.
  assert (ResolveReference base empty_URL = base) as ->.
  { destruct Hform as [Hform|Hform].
    - by apply ResolveReference_empty_opaque.
    - by apply ResolveReference_empty_hierarchical. }
  f_equal. destruct params as [m|]; [|done].
  destruct Hparams as [Hnone Hquery]. unfold addQueryParams.
  assert (forall l (q : Values),
             (forall k vs, (k, vs) ∈ l -> vs = []) ->
             fold_left add_values l q = q) as Hfold.
  { induction l as [|[k vs] l IH]; intros q Hl; [done|].
    cbn [fold_left]. rewrite (Hl k vs) by by left.
    rewrite add_values_spec. apply IH. intros k' vs' Hin.
    apply (Hl k' vs'). by right. }
  rewrite Hfold.
  - rewrite Hquery. by destruct base.
  - intros k vs Hin. apply (Hnone k vs). unfold range_map in Hin.
    rewrite go_range_perm in Hin. by apply elem_of_map_to_list.
Qed.

(** ** Runs in the sample environment *)

Lemma range_in_list_order_perm (V : Type) (site : range_site)
    (m : gmap string V) :
  range_in_list_order V site m ≡ₚ map_to_list m.
Proof. reflexivity. Defined.

Lemma agree_on_singleton (k v : string) :
  agree_on (map_to_list ({[k := v]} : gmap string string)) k v.
Proof.
  intros k' v' Hin _. apply elem_of_map_to_list in Hin.
  by apply lookup_singleton_Some in Hin as [_ ?].
Qed.

(** The functions of the pipeline in the sample environment, with a raw
    transport that refuses and one that answers. *)
Local Abbreviation do_refused :=
  (do range_in_list_order net_refusing sample_dump_request
      sample_dump_response sample_duration).
Local Abbreviation do_answered code :=
  (do range_in_list_order (net_answering code) sample_dump_request
      sample_dump_response sample_duration).
Local Abbreviation with_sample_defaults :=
  (with_defaults range_in_list_order).

(** C2 at the default configuration: the default User-Agent is on the
    request that the logging link gets. *)
Lemma chain_order_headers_then_logging_witness :
  let c := (New []).1.1 in
  let req := mkRequest 0%nat MethodGet empty_URL ∅ None "" in
  CustomDoer (config c) = None
  /\ doer c
     = HttpClient
         (mk_http_Client defaultTimeout
            (HeadersTransport
               (Some (LoggingTransport (Some DefaultTransport) NoOp false))
               (Some {["User-Agent" := defaultUserAgent]}))
            None)
  /\ Header_Get
       (req_Header (with_sample_defaults (Headers (config c)) req))
       "User-Agent"
     = defaultUserAgent.
Proof.
  intros c req. split; [reflexivity|].
  destruct (chain_order_headers_then_logging
              range_in_list_order range_in_list_order_perm net_refusing
              sample_dump_request sample_dump_response sample_duration
              [] req empty_world eq_refl) as (Hdoer & _ & _ & Hget).
  split; [exact Hdoer|].
  apply (Hget {["User-Agent" := defaultUserAgent]} "User-Agent").
  - reflexivity.
  - by vm_compute.
  - apply agree_on_singleton.
  - reflexivity.
Defined.

(** C6 at a lower-case name: the per-request value of user-agent is on the
    request that [do] makes, and the chain of the default client hands it to
    the raw transport in place of the default User-Agent. *)
Lemma request_header_overrides_default_witness :
  let c := client_of default_config in
  let opts :=
    mkRequestConfig None None (Some {["user-agent" := "probe/1.0"]}) in
  exists req chain seen,
    request_of range_in_list_order c background MethodGet
               "https://example.com/" opts = Some req
    /\ transport_of (doer c) = Some chain
    /\ Header_Get (req_Header req) "user-agent" = "probe/1.0"
    /\ w_sent (RoundTrip range_in_list_order net_refusing sample_dump_request
                         sample_dump_response sample_duration
                         chain req empty_world).2
       = (w_sent empty_world ++ [seen])%list
    /\ Header_Get (req_Header seen) "user-agent" = "probe/1.0".
Proof.
  intros c opts.
  destruct (request_of range_in_list_order c background MethodGet
                       "https://example.com/" opts)
    as [req|] eqn:Hreq; [|by vm_compute in Hreq].
  destruct (request_header_overrides_default
              range_in_list_order range_in_list_order_perm net_refusing
              sample_dump_request sample_dump_response sample_duration
              c background MethodGet "https://example.com/" opts req
              {["user-agent" := "probe/1.0"]} "user-agent" "probe/1.0"
              Hreq eq_refl) as [Hget Hchain].
  - vm_compute; reflexivity.
  - discriminate.
  - apply agree_on_singleton.
  - destruct (Hchain (buildTransport (config c)) req empty_world Hget)
      as (seen & Hsent & Hseen).
    by exists req, (buildTransport (config c)), seen.
Defined.

(** C1 at three retry attempts: a refused request is sent once. *)
Lemma failing_request_is_sent_once_witness :
  let c := client_of (buildConfig [WithRetryAttempts 3]).1 in
  RetryAttempts (config c) = 3
  /\ exists seen cause w',
       do_refused c background MethodGet "https://example.com/"
                  (Some (mkRequestConfig None None None)) empty_world
       = (Returned None
            (Some (errors_NewHTTPError None (Some cause) "request failed")),
          w')
       /\ w_sent w' = (w_sent empty_world ++ [seen])%list
       /\ error_kind (errors_NewHTTPError None (Some cause) "request failed")
          = Some NetworkError.
Proof.
  intros c. split; [reflexivity|].
  eapply (failing_request_is_sent_once
            range_in_list_order net_refusing sample_dump_request
            sample_dump_response sample_duration).
  - by vm_compute.
  - intros sent r. by eexists.
Defined.

(** The count of C1, by evaluation: with three retry attempts configured,
    the refused request reaches the raw transport once, not four times. *)
Lemma three_retries_one_attempt :
  let c := (New [WithRetryAttempts 3]).1.1 in
  RetryAttempts (config c) = 3
  /\ length (w_sent (do_refused c background MethodGet "https://example.com/"
                                None empty_world).2) = 1%nat.
Proof. by vm_compute. Qed.

(** C5 at the statuses 404 and 200. *)
Lemma response_is_classified_by_status_witness :
  let c := client_of default_config in
  let opts := mkRequestConfig None None None in
  let resp code := mkResponse code "" ∅ (Some "ok") in
  (exists e w',
     do_answered 404 c background MethodGet "https://example.com/"
                 (Some opts) empty_world
     = (Returned (Some (resp 404)) (Some e), w')
     /\ error_kind e = Some HTTPStatusError
     /\ HTTPError_Response e = Some (resp 404)
     /\ HTTPError_StatusCode e = Some 404)
  /\ exists w',
       do_answered 200 c background MethodGet "https://example.com/"
                   (Some opts) empty_world
       = (Returned (Some (resp 200)) None, w').
Proof.
  intros c opts resp. split.
  - edestruct (response_is_classified_by_status
                 range_in_list_order (net_answering 404) sample_dump_request
                 sample_dump_response sample_duration c background MethodGet
                 "https://example.com/" opts empty_world) as [_ H].
    + by vm_compute.
    + by vm_compute.
    + destruct H as (e & He); [by vm_compute|]. by eexists e, _.
  - edestruct (response_is_classified_by_status
                 range_in_list_order (net_answering 200) sample_dump_request
                 sample_dump_response sample_duration c background MethodGet
                 "https://example.com/" opts empty_world) as [H _].
    + by vm_compute.
    + by vm_compute.
    + eexists. apply H. by vm_compute.
Defined.

Local Abbreviation resolveURL_sample := (resolveURL range_in_list_order).

(** C4 at the target /users on a client with no base URL. *)
Lemma target_without_base_is_refused_witness :
  let c := (New []).1.1 in
  baseURL c = None
  /\ do_answered 200 c background MethodGet "/users" None empty_world
     = (Returned None
          (Some (errors_Wrap
                   (errors_New "cannot resolve relative path without a base URL")
                   "failed to resolve URL")), empty_world).
Proof.
  intros c. split; [reflexivity|].
  destruct (target_without_base_is_refused
              range_in_list_order (net_answering 200) sample_dump_request
              sample_dump_response sample_duration c background MethodGet
              "/users" None empty_world eq_refl) as [H _].
  eapply H; by vm_compute.
Defined.

(** C4 as it was stated fails on targets that do not parse: they lack a
    scheme and a host, no base URL is configured, and the error is the one
    of the invalid URL, not the one of the missing base URL. *)
Lemma malformed_target_gets_other_error :
  let c := (New []).1.1 in
  let missing_base :=
    errors_Wrap (errors_New "cannot resolve relative path without a base URL")
                "failed to resolve URL" in
  baseURL c = None
  /\ do_answered 200 c background MethodGet ":%invalid" None empty_world
     = (Returned None
          (Some (errors_Wrap
                   (errors_Wrap
                      (err_url (mk_url_Error "parse" ":%invalid"
                                             ErrMissingProtocolScheme))
                      "invalid URL or path: :%invalid")
                   "failed to resolve URL")), empty_world)
  /\ do_answered 200 c background MethodGet ":%invalid" None empty_world
     <> (Returned None (Some missing_base), empty_world)
  /\ do_answered 200 c background MethodGet "/users/%zz" None empty_world
     = (Returned None
          (Some (errors_Wrap
                   (errors_Wrap
                      (err_url (mk_url_Error "parse" "/users/%zz"
                                             (EscapeError "%zz")))
                      "invalid URL or path: /users/%zz")
                   "failed to resolve URL")), empty_world)
  /\ do_answered 200 c background MethodGet "/users/%zz" None empty_world
     <> (Returned None (Some missing_base), empty_world).
Proof. by vm_compute. Qed.

(** C6 as it was stated fails on a per-request header with an empty value:
    the request that [do] makes has the header with the empty value, the
    header link of the client takes the header for absent, and the raw
    transport sees the default. *)
Lemma empty_request_header_gets_default :
  let c := client_of default_config in
  let opts := mkRequestConfig None None (Some {["User-Agent" := ""]}) in
  let req :=
    mkRequest 0%nat MethodGet
      (mkURL "https" "" None "example.com" "/" "" false false "" "" "")
      {["User-Agent" := [""]]} None "example.com" in
  let seen := set_req_Header req {["User-Agent" := [defaultUserAgent]]} in
  request_of range_in_list_order c background MethodGet
             "https://example.com/" opts = Some req
  /\ transport_of (doer c) = Some (buildTransport (config c))
  /\ w_sent (RoundTrip range_in_list_order net_refusing sample_dump_request
                       sample_dump_response sample_duration
                       (buildTransport (config c)) req empty_world).2
     = [seen]
  /\ Header_Get (req_Header req) "User-Agent" = ""
  /\ Header_Get (req_Header seen) "User-Agent" = defaultUserAgent
  /\ String.eqb defaultUserAgent "" = false.
Proof. repeat split; vm_compute; reflexivity. Qed.

(** C3 in the sample environment. *)
Lemma rooted_target_replaces_base_path_witness :
  let c := (New [WithBaseURL "https://example.com/api"]).1.1 in
  let params : Values := <["page" := ["1"]]> (<["limit" := ["10"]]> ∅) in
  exists u,
    resolveURL_sample c "/users" (Some params) = inl u
    /\ URL_String u = "https://example.com/users?limit=10&page=1".
Proof.
  intros c params.
  destruct (rooted_target_replaces_base_path
              range_in_list_order range_in_list_order_perm)
    as (_ & u & Hu & Hs & _).
  by exists u.
Defined.

(** C10 at three base URLs: a plain one with nil parameters, one with an
    encoded slash in its path and a query, with empty parameters that are
    not nil, and an opaque one. *)
Lemma empty_target_resolves_to_clean_base_witness :
  let c := (New [WithBaseURL "https://example.com/api"]).1.1 in
  let c' := (New [WithBaseURL "https://example.com/a%2Fb?a=1&b=2"]).1.1 in
  let c'' := (New [WithBaseURL "mailto:user@example.com"]).1.1 in
  (exists base,
     baseURL c = Some base
     /\ URL_String base = "https://example.com/api"
     /\ resolveURL_sample c "" None = inl base)
  /\ (exists base,
        baseURL c' = Some base
        /\ URL_String base = "https://example.com/a%2Fb?a=1&b=2"
        /\ resolveURL_sample c' "" (Some ∅) = inl base)
  /\ (exists base,
        baseURL c'' = Some base
        /\ URL_String base = "mailto:user@example.com"
        /\ resolveURL_sample c'' "" None = inl base).
Proof.
  intros c c' c''. split; [|split].
  - exists (mkURL "https" "" None "example.com" "/api" "" false false
                  "" "" "").
    split; [vm_compute; reflexivity|]. split; [vm_compute; reflexivity|].
    apply (empty_target_resolves_to_clean_base
             range_in_list_order range_in_list_order_perm c).
    + vm_compute; reflexivity.
    + reflexivity.
    + reflexivity.
    + right. split; [reflexivity|]. split; [by left|].
      vm_compute; reflexivity.
    + exact I.
  - exists (mkURL "https" "" None "example.com" "/a/b" "/a%2Fb" false false
                  "a=1&b=2" "" "").
    split; [vm_compute; reflexivity|]. split; [vm_compute; reflexivity|].
    apply (empty_target_resolves_to_clean_base
             range_in_list_order range_in_list_order_perm c').
    + vm_compute; reflexivity.
    + reflexivity.
    + reflexivity.
    + right. split; [reflexivity|]. split; [|vm_compute; reflexivity].
      right. split; [vm_compute; reflexivity|].
      split; [vm_compute; reflexivity|]. vm_compute. discriminate.
    + split; [|vm_compute; reflexivity].
      intros k vs Hk. by rewrite lookup_empty in Hk.
  - exists (mkURL "mailto" "user@example.com" None "" "" "" false false
                  "" "" "").
    split; [vm_compute; reflexivity|]. split; [vm_compute; reflexivity|].
    apply (empty_target_resolves_to_clean_base
             range_in_list_order range_in_list_order_perm c'').
    + vm_compute; reflexivity.
    + reflexivity.
    + reflexivity.
    + left. split; [discriminate|]. by repeat split.
    + exact I.
Defined.

(** C10 as it was stated fails on a base URL with dot segments in its path:
    resolving the empty target removes them. *)
Lemma empty_target_changes_dotted_base :
  let c := (New [WithBaseURL "https://example.com/api/../v2"]).1.1 in
  let u := mkURL "https" "" None "example.com" "/v2" "" false false "" "" "" in
  (URL_String <$> baseURL c) = Some "https://example.com/api/../v2"
  /\ resolveURL_sample c "" None = inl u
  /\ URL_String u = "https://example.com/v2"
  /\ (Path <$> baseURL c) = Some "/api/../v2".
Proof. repeat split; vm_compute; reflexivity. Qed.

(** ** The test tables of the repository *)

(** [TestClient_AddQueryParams]: the seven rows, in every order of the
    parameter map. *)
Lemma TestClient_AddQueryParams_rows
    (go_range : forall V : Type,
        range_site -> gmap string V -> list (string * V))
    (go_range_perm : forall V site (m : gmap string V),
        go_range V site m ≡ₚ map_to_list m) :
  let base :=
    mkURL "https" "" None "example.com" "/api" "" false false "" "" "" in
  let with_query :=
    mkURL "https" "" None "example.com" "/api" "" false false "existing=true"
          "" "" in
  let run u params := URL_String (addQueryParams go_range u params) in
  url_Parse "https://example.com/api" = inl base
  /\ url_Parse "https://example.com/api?existing=true" = inl with_query
  /\ run base None = "https://example.com/api"
  /\ run base (Some ∅) = "https://example.com/api"
  /\ run base (Some {["key" := ["value"]]})
     = "https://example.com/api?key=value"
  /\ run base (Some (<["page" := ["1"]]> {["limit" := ["10"]]}))
     = "https://example.com/api?limit=10&page=1"
  /\ run base (Some {["tag" := ["golang"; "testing"; "http"]]})
     = "https://example.com/api?tag=golang&tag=testing&tag=http"
  /\ run with_query (Some {["new" := ["param"]]})
     = "https://example.com/api?existing=true&new=param"
  /\ run base (Some (<["search" := ["hello world"]]>
                       {["filter" := ["status=active&type=user"]]}))
     = "https://example.com/api?filter=status%3Dactive%26type%3Duser&search=hello+world".
Proof.
  intros base with_query run. subst run. cbv beta.
  rewrite !(addQueryParams_any_order go_range go_range_perm).
  repeat split; vm_compute; reflexivity.
Qed.

(** [TestClient_ResolveURL]: what [resolveURL] returns on the rows that
    expect a URL. The rows with the targets /users and users expect the path
    /api/users and do not get it. *)
Lemma TestClient_ResolveURL_rows
    (go_range : forall V : Type,
        range_site -> gmap string V -> list (string * V))
    (go_range_perm : forall V site (m : gmap string V),
        go_range V site m ≡ₚ map_to_list m) :
  let base :=
    mkURL "https" "" None "example.com" "/api" "" false false "" "" "" in
  let c := mkClient (CustomDoerOf (fun _ => (None, None))) (Some base) NoOp
                    default_config in
  let run target params :=
    match resolveURL go_range c target params with
    | inl u => Some (URL_String u)
    | inr _ => None
    end in
  run "https://other.com/path" None = Some "https://other.com/path"
  /\ run "https://other.com/path" (Some {["key" := ["value"]]})
     = Some "https://other.com/path?key=value"
  /\ run "/users" None = Some "https://example.com/users"
  /\ run "/users" (Some (<["page" := ["1"]]> {["limit" := ["10"]]}))
     = Some "https://example.com/users?limit=10&page=1"
  /\ run ":%invalid" None = None
  /\ run "" None = Some "https://example.com/api"
  /\ run "users" None = Some "https://example.com/users".
Proof.
  intros base c run. subst run. cbv beta.
  rewrite !(resolveURL_any_order go_range go_range_perm).
  repeat split; vm_compute; reflexivity.
Qed.

(** * Further properties *)

(** ** The configuration that [buildConfig] returns *)

Lemma apply_options_app (a b : list ClientOption) (cfg : ClientConfig) :
  (apply_options (a ++ b) cfg).1
  = (apply_options b (apply_options a cfg).1).1.
Proof.
  revert cfg. induction a as [|opt a IH]; intros cfg.
  - cbn. by destruct (apply_options b cfg).
  - cbn [app apply_options]. destruct (opt cfg) as [cfg1 l1].
    specialize (IH cfg1).
    destruct (apply_options (a ++ b) cfg1) as [cfg2 l2].
    destruct (apply_options a cfg1) as [cfg3 l3]. exact IH.
Qed.

Lemma apply_options_snoc (a : list ClientOption) (opt : ClientOption)
    (cfg : ClientConfig) :
  (apply_options (a ++ [opt]) cfg).1 = (opt (apply_options a cfg).1).1.
Proof.
  rewrite apply_options_app. cbn [apply_options].
  by destruct (opt _).
Qed.

(** [strings.TrimRight] with the slash as cutset leaves no slash at the
    end. *)
Lemma TrimRight_slash_no_suffix (s : string) :
  strings_HasSuffix (strings_TrimRight s "/") "/" = false.
Proof.
  induction s as [|c s IH]; [done|].
  cbn [strings_TrimRight].
  destruct (strings_TrimRight s "/") as [|d r] eqn:Htrim.
  - destruct (byte_in c "/") eqn:Hc; [done|].
    unfold strings_HasSuffix. cbn. cbn in Hc. rewrite orb_false_r in Hc.
    by rewrite Hc.
  - unfold strings_HasSuffix in *. cbn in IH |- *.
    by rewrite Nat.sub_0_r in IH.
Qed.

Lemma option_of_keeps_config_ok (call : OptionCall) (cfg : ClientConfig) :
  config_ok cfg -> config_ok (option_of call cfg).1.
Proof.
  intros Hok. pose proof Hok as (Ht & Hr & (m & Hm & Hua) & Hb).
  assert (exists m, Headers cfg = Some m /\ is_Some (m !! "User-Agent"))
    as Hh by by exists m.
  destruct call as [d|s|n|h|[j|]|[l|]|b|[d|]]; cbn [option_of];
    try exact Hok.
  - unfold WithTimeout. destruct (Z.ltb_spec 0 d); [|exact Hok].
    by split; [|split; [|split]].
  - unfold WithBaseURL. destruct (String.eqb s ""); [exact Hok|].
    unfold normalizeBaseURL. destruct (url_Parse s) as [u|e]; [|exact Hok].
    destruct (IsAbs u) eqn:Habs; cbn [negb]; [|exact Hok].
    split; [|split; [|split]]; try done.
    cbn [fst BaseURL]. intros u' [= <-]. split; [exact Habs|].
    cbn [Path]. apply TrimRight_slash_no_suffix.
  - unfold WithRetryAttempts. destruct (Z.leb_spec 0 n); [|exact Hok].
    by split; [|split; [|split]].
  - unfold WithHeaders. destruct (map_len h =? 0)%nat; [exact Hok|].
    split; [|split; [|split]]; try done.
    cbn [fst Headers]. eexists. split; [done|].
    rewrite Hm. apply lookup_union_is_Some. by right.
Qed.

(** X1. Whatever options a client is built from, its configuration has a
    positive timeout, a retry count that is not negative, a header map that
    is not nil and holds a User-Agent, and a base URL that, when set, has a
    scheme and a path with no slash at its end. *)
Theorem buildConfig_keeps_its_invariants (calls : list OptionCall) :
  let cfg := (buildConfig (option_of <$> calls)).1 in
  0 < Timeout cfg
  /\ 0 <= RetryAttempts cfg
  /\ (exists m, Headers cfg = Some m /\ is_Some (m !! "User-Agent"))
  /\ (forall u, BaseURL cfg = Some u ->
        IsAbs u = true /\ strings_HasSuffix (Path u) "/" = false).
Proof.
  cbv zeta. unfold buildConfig. fold (config_ok
    (apply_options (option_of <$> calls) default_config).1).
  induction calls as [|call calls IH] using rev_ind.
  - cbn. repeat split; try done. eexists. split; [done|].
    by rewrite lookup_singleton_eq.
  - rewrite fmap_app. cbn [fmap list_fmap]. rewrite apply_options_snoc.
    by apply option_of_keeps_config_ok.
Qed.

(** X2. Later options override earlier ones: the timeout, the retry count,
    the debug flag and the logger of the configuration are those of the last
    call that the option accepts. *)
Theorem last_accepted_option_wins (pre post : list OptionCall) :
  let built call :=
    (buildConfig (option_of <$> (pre ++ call :: post)%list)).1 in
  (forall d, 0 < d ->
     (forall d', CallWithTimeout d' ∈ post -> d' <= 0) ->
     Timeout (built (CallWithTimeout d)) = d)
  /\ (forall n, 0 <= n ->
        (forall n', CallWithRetryAttempts n' ∈ post -> n' < 0) ->
        RetryAttempts (built (CallWithRetryAttempts n)) = n)
  /\ (forall b,
        (forall b', CallWithDebug b' ∉ post) ->
        Debug (built (CallWithDebug b)) = b)
  /\ (forall l,
        (forall l', CallWithLogger (Some l') ∉ post) ->
        Logger_of (built (CallWithLogger (Some l))) = l).
Proof.
  cbv zeta. unfold buildConfig.
  assert (forall A (f : ClientConfig -> A) call,
            (forall c, c ∈ post -> keeps f (option_of c)) ->
            f (apply_options (option_of <$> (pre ++ call :: post)%list)
                             default_config).1
            = f (option_of call
                   (apply_options (option_of <$> pre) default_config).1).1)
    as Hpost.
  { intros A f call Hkeeps.
    rewrite fmap_app, apply_options_app. cbn [fmap list_fmap apply_options].
    destruct (option_of call _) as [cfg1 l1] eqn:Hcall.
    pose proof (keeps_field f post cfg1 Hkeeps) as Hk.
    fold (@fmap list _) in *.
    destruct (apply_options (option_of <$> post) cfg1) as [cfg2 l2].
    exact Hk. }
  repeat split.
  - intros dur Hd Hlater. rewrite (Hpost _ Timeout).
    + cbn. unfold WithTimeout. by destruct (Z.ltb_spec 0 dur); [|lia].
    + intros call Hin draft. option_cases call.
      unfold WithTimeout. specialize (Hlater _ Hin).
      by destruct (Z.ltb_spec 0 d); [lia|].
  - intros count Hn Hlater. rewrite (Hpost _ RetryAttempts).
    + cbn. unfold WithRetryAttempts.
      by destruct (Z.leb_spec 0 count); [|lia].
    + intros call Hin draft. option_cases call.
      unfold WithRetryAttempts. specialize (Hlater _ Hin).
      by destruct (Z.leb_spec 0 n); [lia|].
  - intros flag Hlater. rewrite (Hpost _ Debug); [done|].
    intros call Hin draft. option_cases call. by destruct (Hlater b).
  - intros lg Hlater. rewrite (Hpost _ Logger_of); [done|].
    intros call Hin draft. option_cases call. by destruct (Hlater l).
Qed.

Lemma WithHeaders_lookup (H : gmap string string) (cfg : ClientConfig)
    (k : string) :
  H <> ∅ ->
  configured_header k (WithHeaders (Some H) cfg).1
  = match H !! k with
    | Some v => Some v
    | None => configured_header k cfg
    end.
Proof.
  intros Hne. unfold WithHeaders, configured_header. cbn [map_len].
  destruct (Nat.eqb_spec (size H) 0) as [Hsize|_].
  { by apply map_size_empty_iff in Hsize. }
  cbn [fst Headers]. change (default ∅ (Some H)) with H.
  rewrite lookup_union.
  destruct (H !! k) as [v|] eqn:Hk.
  - by destruct (Headers cfg) as [m|]; [destruct (m !! k)|].
  - destruct (Headers cfg) as [m|]; [by destruct (m !! k)|done].
Qed.

(** X3. The header options merge name by name, and the later one wins: the
    configured value of a name is the one that the last headers option
    holding that name gives it. Names are compared as they are written. *)
Theorem later_headers_option_wins (pre post : list OptionCall)
    (H : gmap string string) (k v : string) :
  H !! k = Some v ->
  (forall H', CallWithHeaders (Some H') ∈ post -> H' !! k = None) ->
  configured_header k
    (buildConfig
       (option_of <$> (pre ++ CallWithHeaders (Some H) :: post)%list)).1
  = Some v.
Proof.
  intros Hk Hpost. unfold buildConfig.
  rewrite fmap_app, apply_options_app. cbn [fmap list_fmap apply_options].
  set (cfg0 := (apply_options (option_of <$> pre) default_config).1).
  assert (H <> ∅) as Hne by (intros ->; by rewrite lookup_empty in Hk).
  pose proof (WithHeaders_lookup H cfg0 k Hne) as Hcall. rewrite Hk in Hcall.
  cbn [option_of]. destruct (WithHeaders (Some H) cfg0) as [cfg1 l1].
  cbn [fst] in Hcall.
  pose proof (keeps_field (configured_header k) post cfg1) as Hkeep.
  fold (@fmap list _) in *.
  destruct (apply_options (option_of <$> post) cfg1) as [cfg2 l2].
  cbn [fst] in *. rewrite Hkeep; [done|].
  intros call Hin draft. option_cases call.
  destruct h as [H'|]; [|done].
  destruct (decide (H' = ∅)) as [->|Hne'].
  - unfold WithHeaders. cbn. by rewrite map_size_empty.
  - rewrite (WithHeaders_lookup H' draft k Hne').
    by rewrite (Hpost H' Hin).
Qed.

(** X16. Every entry of the configured header map is the default User-Agent
    or an entry of the map of some headers option among the calls. *)
Theorem configured_headers_come_from_options (calls : list OptionCall)
    (k v : string) :
  configured_header k (buildConfig (option_of <$> calls)).1 = Some v ->
  (k = "User-Agent" /\ v = defaultUserAgent)
  \/ exists H, CallWithHeaders (Some H) ∈ calls /\ H !! k = Some v.
Proof.
  unfold buildConfig. revert v.
  induction calls as [|call calls IH] using rev_ind; intros v.
  - cbn. intros Hv. left.
    by apply lookup_singleton_Some in Hv as [<- <-].
  - rewrite fmap_app. cbn [fmap list_fmap]. rewrite apply_options_snoc.
    set (cfg0 := (apply_options (option_of <$> calls) default_config).1)
      in *.
    assert (configured_header k cfg0 = Some v ->
            (k = "User-Agent" /\ v = defaultUserAgent)
            \/ exists H, CallWithHeaders (Some H) ∈ (calls ++ [call])%list
                         /\ H !! k = Some v) as Hold.
    { intros Hv. destruct (IH v Hv) as [?|(H & Hin & Hk)]; [by left|].
      right. exists H. split; [|done]. apply elem_of_app. by left. }
    destruct call as [d|s|n|h|[j|]|[l|]|b|[d|]]; cbn [option_of];
      try exact Hold.
    + unfold WithTimeout. by destruct (0 <? d).
    + unfold WithBaseURL. destruct (String.eqb s ""); [done|].
      by destruct (normalizeBaseURL s).
    + unfold WithRetryAttempts. by destruct (0 <=? n).
    + destruct h as [H|]; [|exact Hold].
      destruct (decide (H = ∅)) as [->|Hne].
      { unfold WithHeaders. cbn. by rewrite map_size_empty. }
      rewrite (WithHeaders_lookup H cfg0 k Hne).
      destruct (H !! k) as [v'|] eqn:Hk; [|exact Hold].
      intros [= <-]. right. exists H. split; [|done].
      apply elem_of_app. right. by left.
Qed.

(** ** Resolving a target against the base URL *)

Lemma setPath_keeps (u u' : URL) (p : string) :
  setPath u p = inl u' ->
  Scheme u' = Scheme u /\ Opaque u' = Opaque u /\ User u' = User u
  /\ Host u' = Host u /\ RawQuery u' = RawQuery u.
Proof.
  unfold setPath. destruct (unescape p encodePath); [|done].
  by intros [= <-].
Qed.

Lemma setPath_ignore_keeps (u : URL) (p : string) :
  Scheme (setPath_ignore u p) = Scheme u
  /\ User (setPath_ignore u p) = User u
  /\ Host (setPath_ignore u p) = Host u.
Proof.
  unfold setPath_ignore. destruct (setPath u p) as [u'|] eqn:Hset; [|done].
  by destruct (setPath_keeps _ _ _ Hset) as (-> & _ & -> & -> & _).
Qed.

Lemma ToLower_empty (s : string) : strings_ToLower s = "" -> s = "".
Proof. by destruct s. Qed.

(** A URL that parses with no scheme has no opaque part. *)
Lemma url_Parse_no_scheme_no_opaque (s : string) (u : URL) :
  url_Parse s = inl u -> Scheme u = "" -> Opaque u = "".
Proof.
  unfold url_Parse. destruct (strings_Cut s "#") as [[body frag] found].
  assert (forall v, parse body = inl v -> Scheme v = "" -> Opaque v = "")
    as Hparse.
  { unfold parse. intros v.
    destruct (stringContainsCTLByte body); [done|].
    destruct (String.eqb body "*"); [by intros [= <-]|].
    destruct (getScheme body) as [[scheme rest]|e]; [|done].
    destruct (if strings_HasSuffix rest "?" && _ then _ else _)
      as [[rest' force] query].
    destruct (String.eqb_spec (strings_ToLower scheme) "") as [Hs|Hs].
    - rewrite Hs. cbn [String.eqb negb andb orb]. rewrite andb_false_r.
      destruct (_ && _); [done|].
      destruct (_ && _).
      + destruct (strings_Index _ _) as [i|];
          (destruct (parseAuthority _) as [[user host]|e]; [|done]);
          intros Hset _;
          by destruct (setPath_keeps _ _ _ Hset) as (_ & -> & _).
      + intros Hset _.
        by destruct (setPath_keeps _ _ _ Hset) as (_ & -> & _).
    - destruct (negb (strings_HasPrefix rest' "/") && _).
      + intros [= <-]. cbn. by intros.
      + destruct (_ && _); [done|].
        destruct (_ && _).
        * destruct (strings_Index _ _) as [i|];
            (destruct (parseAuthority _) as [[user host]|e]; [|done]);
            intros Hset Hsch;
            by destruct (setPath_keeps _ _ _ Hset) as (Hx & _);
            rewrite Hx in Hsch.
        * intros Hset Hsch.
          by destruct (setPath_keeps _ _ _ Hset) as (Hx & _);
          rewrite Hx in Hsch. }
  destruct (parse body) as [v|e]; [|done].
  destruct (String.eqb frag ""); [intros [= <-]; by apply Hparse|].
  unfold setFragment. destruct (unescape frag encodeFragment); [|done].
  intros [= <-]. cbn. by apply Hparse.
Qed.

Lemma addQueryParams_keeps
    (go_range : forall V : Type,
        range_site -> gmap string V -> list (string * V))
    (u : URL) (params : option Values) :
  let u' := addQueryParams go_range u params in
  Scheme u' = Scheme u /\ User u' = User u /\ Host u' = Host u
  /\ Path u' = Path u /\ RawPath u' = RawPath u
  /\ Fragment u' = Fragment u.
Proof. by destruct params. Qed.

(** X17. A target with no scheme, host or user information never leaves
    the base URL of the client when that has no opaque part: whatever its
    path and the query parameters, it resolves, without error, to a URL with
    the scheme, the user information and the host of the base URL. *)
Theorem relative_target_stays_on_base_host
    (go_range : forall V : Type,
        range_site -> gmap string V -> list (string * V))
    (c : Client) (base ref : URL) (target : string)
    (params : option Values) :
  baseURL c = Some base ->
  Opaque base = "" ->
  url_Parse target = inl ref ->
  Scheme ref = "" -> Host ref = "" -> User ref = None ->
  exists u,
    resolveURL go_range c target params = inl u
    /\ Scheme u = Scheme base /\ User u = User base /\ Host u = Host base.
Proof.
  intros Hbase Hopaque Hparse Hscheme Hhost Huser.
  pose proof (url_Parse_no_scheme_no_opaque _ _ Hparse Hscheme) as Href.
  unfold resolveURL. rewrite Hparse. unfold IsAbs.
  rewrite Hscheme, Hbase. cbn [String.eqb negb].
  eexists. split; [reflexivity|].
  destruct (addQueryParams_keeps go_range (ResolveReference base ref) params)
    as (-> & -> & -> & _).
  unfold ResolveReference.
  rewrite Hscheme, Hhost, Huser, Href, Hopaque.
  cbn [String.eqb negb orb andb]. rewrite andb_false_r.
  by destruct (setPath_ignore_keeps
                 (mkURL (Scheme base) "" (User base) (Host base) (Path ref)
                    (RawPath ref) (OmitHost ref) (ForceQuery ref)
                    (if String.eqb (Path ref) "" && negb (ForceQuery ref)
                        && String.eqb (RawQuery ref) ""
                     then RawQuery base else RawQuery ref)
                    (if String.eqb (Path ref) "" && negb (ForceQuery ref)
                        && String.eqb (RawQuery ref) ""
                        && String.eqb (Fragment ref) ""
                     then Fragment base else Fragment ref)
                    (if String.eqb (Path ref) "" && negb (ForceQuery ref)
                        && String.eqb (RawQuery ref) ""
                        && String.eqb (Fragment ref) ""
                     then RawFragment base else RawFragment ref))
                 (resolvePath (EscapedPath base) (EscapedPath ref)))
    as (-> & -> & ->).
Qed.

Lemma resolvePath_rooted (base p : string) :
  p <> "" -> clean_path p = true -> resolvePath base p = p.
Proof.
  intros Hne Hclean. rewrite <- (resolvePath_clean p Hclean) at 2.
  destruct p as [|c rest]; [done|].
  cbn [clean_path] in Hclean. apply andb_true_iff in Hclean as [Hc _].
  unfold resolvePath. by rewrite Hc.
Qed.

(** X18. The path of the base URL plays no part for a target whose path
    starts with a slash: such a target, with no scheme, host or user
    information, no encoded-path hint and no dot segment, resolves to a URL
    with the path of the target itself. *)
Theorem rooted_target_drops_base_path
    (go_range : forall V : Type,
        range_site -> gmap string V -> list (string * V))
    (c : Client) (base ref : URL) (target : string)
    (params : option Values) :
  baseURL c = Some base ->
  url_Parse target = inl ref ->
  Scheme ref = "" -> Host ref = "" -> User ref = None ->
  RawPath ref = "" -> Path ref <> "" ->
  clean_path (EscapedPath ref) = true ->
  exists u,
    resolveURL go_range c target params = inl u
    /\ Path u = Path ref /\ RawPath u = "" /\ Host u = Host base.
Proof.
  intros Hbase Hparse Hscheme Hhost Huser Hraw Hpath Hclean.
  pose proof (url_Parse_no_scheme_no_opaque _ _ Hparse Hscheme) as Href.
  assert (EscapedPath ref = escape (Path ref) encodePath) as Hesc.
  { unfold EscapedPath in *. rewrite Hraw in *.
    cbn [String.eqb negb andb] in *.
    destruct (String.eqb_spec (Path ref) "*") as [Hstar|]; [|done].
    by vm_compute in Hclean. }
  assert (EscapedPath ref <> "") as Hne.
  { rewrite Hesc. destruct (Path ref) as [|x r]; [done|].
    cbn [escape]. by destruct x as [[] [] [] [] [] [] [] []]. }
  unfold resolveURL. rewrite Hparse. unfold IsAbs.
  rewrite Hscheme, Hbase. cbn [String.eqb negb].
  eexists. split; [reflexivity|].
  destruct (addQueryParams_keeps go_range (ResolveReference base ref) params)
    as (_ & _ & -> & -> & -> & _).
  unfold ResolveReference.
  rewrite Hscheme, Hhost, Huser, Href.
  cbn [String.eqb negb orb andb].
  destruct (String.eqb_spec (Path ref) "") as [|_]; [done|].
  cbn [andb]. rewrite (resolvePath_rooted _ _ Hne Hclean).
  unfold setPath_ignore, setPath. rewrite Hesc, unescape_escape_path.
  by rewrite String.eqb_refl.
Qed.

(** ** The query of a resolved URL *)

Lemma escape_byte_query_plain (c : ascii) :
  str_forallb query_plain (escape_byte c encodeQueryComponent) = true.
Proof. by destruct c as [[] [] [] [] [] [] [] []]. Qed.

Lemma str_forallb_app (p : ascii -> bool) (a b : string) :
  str_forallb p (a +:+ b) = str_forallb p a && str_forallb p b.
Proof.
  induction a as [|x a IH]; [done|].
  rewrite append_cons. cbn [str_forallb]. by rewrite IH, andb_assoc.
Qed.

Lemma QueryEscape_plain (s : string) :
  str_forallb query_plain (QueryEscape s) = true.
Proof.
  unfold QueryEscape. induction s as [|c s IH]; [done|].
  cbn [escape]. by rewrite str_forallb_app, escape_byte_query_plain, IH.
Qed.

Lemma unescape_check_escape_byte_query (c : ascii) (rest : string) :
  unescape_check (escape_byte c encodeQueryComponent +:+ rest)
                 encodeQueryComponent
  = unescape_check rest encodeQueryComponent.
Proof. by destruct c as [[] [] [] [] [] [] [] []]. Qed.

Lemma unescape_decode_escape_byte_query (c : ascii) (rest : string) :
  unescape_decode (escape_byte c encodeQueryComponent +:+ rest)
                  encodeQueryComponent
  = String c (unescape_decode rest encodeQueryComponent).
Proof. by destruct c as [[] [] [] [] [] [] [] []]. Qed.

(** [QueryUnescape] undoes [QueryEscape]. *)
Lemma QueryUnescape_QueryEscape (s : string) :
  QueryUnescape (QueryEscape s) = inl s.
Proof.
  unfold QueryUnescape, QueryEscape, unescape.
  assert (unescape_check (escape s encodeQueryComponent) encodeQueryComponent
          = None) as ->.
  { induction s as [|c s IH]; [done|].
    cbn [escape]. by rewrite unescape_check_escape_byte_query. }
  f_equal. induction s as [|c s IH]; [done|].
  cbn [escape]. by rewrite unescape_decode_escape_byte_query, IH.
Qed.

Lemma append_empty_l (a : string) : "" +:+ a = a.
Proof. reflexivity. Qed.

Lemma Cut_plain (a b : string) (sep : ascii) :
  str_forallb (fun c => negb (Ascii.eqb c sep)) a = true ->
  strings_Cut (a +:+ String sep b) sep = (a, b, true).
Proof.
  induction a as [|x a IH]; intros Ha.
  - rewrite append_empty_l. cbn [strings_Cut]. by rewrite Ascii.eqb_refl.
  - cbn [str_forallb] in Ha. apply andb_true_iff in Ha as [Hx Ha].
    rewrite append_cons. cbn [strings_Cut].
    apply negb_true_iff in Hx. rewrite Hx. by rewrite (IH Ha).
Qed.

Lemma Split_plain (a : string) (sep : ascii) :
  str_forallb (fun c => negb (Ascii.eqb c sep)) a = true ->
  strings_Split a sep = [a].
Proof.
  induction a as [|x a IH]; intros Ha; [done|].
  cbn [str_forallb] in Ha. apply andb_true_iff in Ha as [Hx Ha].
  cbn [strings_Split]. apply negb_true_iff in Hx. rewrite Hx.
  by rewrite (IH Ha).
Qed.

Lemma Split_plain_app (a b : string) (sep : ascii) :
  str_forallb (fun c => negb (Ascii.eqb c sep)) a = true ->
  strings_Split (a +:+ String sep b) sep = a :: strings_Split b sep.
Proof.
  induction a as [|x a IH]; intros Ha.
  - rewrite append_empty_l. cbn [strings_Split]. by rewrite Ascii.eqb_refl.
  - cbn [str_forallb] in Ha. apply andb_true_iff in Ha as [Hx Ha].
    rewrite append_cons. cbn [strings_Split].
    apply negb_true_iff in Hx. rewrite Hx. by rewrite (IH Ha).
Qed.

Lemma str_forallb_weaken (p q : ascii -> bool) (s : string) :
  (forall c, p c = true -> q c = true) ->
  str_forallb p s = true -> str_forallb q s = true.
Proof.
  intros Hpq. induction s as [|c s IH]; [done|].
  cbn. intros H. apply andb_true_iff in H as [Hc Hs].
  by rewrite (Hpq c Hc), (IH Hs).
Qed.

Lemma query_plain_not (sep : ascii) :
  byte_in sep "&;=" = true ->
  forall c, query_plain c = true -> negb (Ascii.eqb c sep) = true.
Proof.
  intros Hsep c Hc. apply negb_true_iff.
  destruct (Ascii.eqb_spec c sep) as [->|]; [|done].
  unfold query_plain in Hc. by rewrite Hsep in Hc.
Qed.

(** Joining pieces that hold no ampersand and splitting at the ampersand
    gives the pieces back. *)
Lemma Split_join_pieces (pieces : list string) :
  pieces <> [] ->
  Forall (fun p => str_forallb (fun c => negb (Ascii.eqb c "&")) p = true)
         pieces ->
  strings_Split (str_join "&" pieces) "&" = pieces.
Proof.
  intros Hne Hall. induction Hall as [|p ps Hp Hps IH]; [done|].
  unfold str_join in *. cbn [String.concat].
  destruct ps as [|p' ps]; [by apply Split_plain|].
  rewrite append_cons, append_empty_l.
  rewrite (Split_plain_app _ _ _ Hp). f_equal. by apply IH.
Qed.

Lemma ContainsByte_plain (s : string) (sep : ascii) :
  str_forallb (fun c => negb (Ascii.eqb c sep)) s = true ->
  strings_ContainsByte s sep = false.
Proof.
  unfold strings_ContainsByte. induction s as [|x s IH]; [done|].
  cbn. intros H. apply andb_true_iff in H as [Hx Hs].
  apply negb_true_iff in Hx. by rewrite Ascii.eqb_sym, Hx, (IH Hs).
Qed.

Lemma QueryEscape_without (sep : ascii) (s : string) :
  byte_in sep "&;=" = true ->
  str_forallb (fun c => negb (Ascii.eqb c sep)) (QueryEscape s) = true.
Proof.
  intros Hsep. eapply str_forallb_weaken; [|apply QueryEscape_plain].
  by apply query_plain_not.
Qed.

Lemma query_pair_without (sep : ascii) (k v : string) :
  byte_in sep "&;" = true ->
  str_forallb (fun c => negb (Ascii.eqb c sep)) (query_pair k v) = true.
Proof.
  intros Hsep. unfold query_pair.
  assert (byte_in sep "&;=" = true) as Hsep'.
  { cbn in Hsep |- *. apply orb_true_iff in Hsep as [->|Hsep]; [done|].
    apply orb_true_iff in Hsep as [->|Hsep]; [|done].
    by rewrite orb_true_r. }
  rewrite !str_forallb_app, !(QueryEscape_without _ _ Hsep').
  cbn [str_forallb andb]. rewrite andb_true_r.
  cbn in Hsep. rewrite orb_false_r in Hsep.
  apply orb_true_iff in Hsep as [H|H]; apply Ascii.eqb_eq in H; by subst.
Qed.

(** [parseQuery] reads a pair that [Encode] wrote as the key and the value
    that went in. *)
Lemma parseQuery_pair (m : Values) (k v : string) (rest : list string) :
  parseQuery_pairs m (query_pair k v :: rest)
  = parseQuery_pairs (Values_Add m k v) rest.
Proof.
  cbn [parseQuery_pairs].
  rewrite (ContainsByte_plain _ ";" (query_pair_without ";" k v eq_refl)).
  assert (String.eqb (query_pair k v) "" = false) as ->.
  { unfold query_pair. destruct (QueryEscape k); by rewrite ?append_cons. }
  unfold query_pair at 1. rewrite append_cons, append_empty_l.
  rewrite (Cut_plain _ _ "=" (QueryEscape_without "=" k eq_refl)).
  by rewrite !QueryUnescape_QueryEscape.
Qed.

Lemma parseQuery_key (m : Values) (k : string) (vs : list string)
    (rest : list string) :
  parseQuery_pairs m ((query_pair k <$> vs) ++ rest)%list
  = parseQuery_pairs (add_values m (k, vs)) rest.
Proof.
  revert m. induction vs as [|v vs IH]; intros m; [done|].
  cbn [fmap list_fmap app]. rewrite parseQuery_pair.
  fold (@fmap list _) in *. by rewrite IH.
Qed.

Lemma parseQuery_keys (q m : Values) (keys : list string) :
  parseQuery_pairs m (concat (Values_Encode_key q <$> keys))
  = fold_left add_values
      ((fun k => (k, default [] (q !! k))) <$> keys) m.
Proof.
  revert m. induction keys as [|k keys IH]; intros m; [done|].
  cbn [fmap list_fmap concat fold_left]. fold (@fmap list _) in *.
  unfold Values_Encode_key at 1.
  change (fun value => QueryEscape k +:+ "=" +:+ QueryEscape value)
    with (query_pair k).
  by rewrite parseQuery_key, IH.
Qed.

Lemma Values_Add_nonempty (m : Values) (k v : string) :
  nonempty_values m -> nonempty_values (Values_Add m k v).
Proof.
  intros Hm k'. unfold Values_Add.
  destruct (decide (k = k')) as [<-|Hne].
  - rewrite lookup_insert_eq. intros [= Heq].
    by destruct (default [] (m !! k)).
  - rewrite lookup_insert_ne by done. apply Hm.
Qed.

Lemma parseQuery_pairs_nonempty (m : Values) (pairs : list string) :
  nonempty_values m -> nonempty_values (parseQuery_pairs m pairs).
Proof.
  revert m. induction pairs as [|p pairs IH]; intros m Hm; [done|].
  cbn [parseQuery_pairs]. repeat case_match; try by apply IH.
  apply IH. by apply Values_Add_nonempty.
Qed.

Lemma URL_Query_nonempty (u : URL) : nonempty_values (URL_Query u).
Proof.
  unfold URL_Query. case_match.
  - intros k. by rewrite lookup_empty.
  - apply parseQuery_pairs_nonempty. intros k. by rewrite lookup_empty.
Qed.

Lemma add_values_nonempty (q : Values) (x : string * list string) :
  nonempty_values q -> nonempty_values (add_values q x).
Proof.
  destruct x as [k vs]. rewrite add_values_spec. intros Hq.
  destruct vs as [|v vs]; [done|]. intros k'.
  destruct (decide (k = k')) as [<-|Hne].
  - rewrite lookup_insert_eq. intros [= Heq].
    by destruct (default [] (q !! k)).
  - rewrite lookup_insert_ne by done. apply Hq.
Qed.

Lemma fold_add_values_nonempty (l : list (string * list string))
    (q : Values) :
  nonempty_values q -> nonempty_values (fold_left add_values l q).
Proof.
  revert q. induction l as [|x l IH]; intros q Hq; [done|].
  cbn [fold_left]. apply IH. by apply add_values_nonempty.
Qed.

(** A key that the loop does not visit keeps its values. *)
Lemma fold_add_values_other (l : list (string * list string)) (q : Values)
    (k : string) :
  k ∉ l.*1 -> fold_left add_values l q !! k = q !! k.
Proof.
  revert q. induction l as [|[k' vs] l IH]; intros q Hk; [done|].
  cbn [fold_left]. rewrite IH.
  - rewrite add_values_spec. destruct vs as [|v vs]; [done|].
    rewrite lookup_insert_ne; [done|]. intros ->. apply Hk. by left.
  - intros Hin. apply Hk. by right.
Qed.

(** A key that the loop visits once gets its new values after the old. *)
Lemma fold_add_values_at (l : list (string * list string)) (q : Values)
    (k : string) (vs : list string) :
  NoDup l.*1 -> (k, vs) ∈ l ->
  fold_left add_values l q !! k
  = match vs with
    | [] => q !! k
    | _ => Some (default [] (q !! k) ++ vs)%list
    end.
Proof.
  revert q. induction l as [|[k' vs'] l IH]; intros q Hnd Hin.
  - by apply elem_of_nil in Hin.
  - cbn in Hnd. apply NoDup_cons in Hnd as [Hk' Hnd].
    cbn [fold_left]. apply elem_of_cons in Hin as [[= <- <-]|Hin].
    + rewrite fold_add_values_other by done.
      rewrite add_values_spec. destruct vs as [|v vs]; [done|].
      by rewrite lookup_insert_eq.
    + rewrite (IH _ Hnd Hin).
      assert (k' <> k) as Hne.
      { intros ->. apply Hk'. apply list_elem_of_fmap. by exists (k, vs). }
      rewrite add_values_spec. destruct vs' as [|v' vs']; [done|].
      by rewrite lookup_insert_ne.
Qed.

Lemma fold_add_values_map_to_list (q : Values) :
  nonempty_values q -> fold_left add_values (map_to_list q) ∅ = q.
Proof.
  intros Hq. apply map_eq. intros k.
  destruct (q !! k) as [vs|] eqn:Hk.
  - rewrite (fold_add_values_at _ _ k vs).
    + destruct vs as [|v vs]; [by apply Hq in Hk|].
      by rewrite lookup_empty.
    + apply NoDup_fst_map_to_list.
    + by apply elem_of_map_to_list.
  - rewrite fold_add_values_other; [by rewrite lookup_empty|].
    intros Hin. apply list_elem_of_fmap in Hin as [[k' vs] [-> Hin]].
    apply elem_of_map_to_list in Hin. cbn in Hk. congruence.
Qed.

Lemma URL_Query_Split (u : URL) :
  URL_Query u = parseQuery_pairs ∅ (strings_Split (RawQuery u) "&").
Proof.
  unfold URL_Query. destruct (String.eqb_spec (RawQuery u) "") as [->|]; done.
Qed.

(** Parsing what [Encode] wrote gives the values back. *)
Lemma parseQuery_Encode (q : Values) :
  nonempty_values q ->
  parseQuery_pairs ∅ (strings_Split (Values_Encode q) "&") = q.
Proof.
  intros Hq. unfold Values_Encode.
  set (keys := merge_sort String.le (map_to_list q).*1).
  set (pieces := concat (Values_Encode_key q <$> keys)).
  assert (keys ≡ₚ (map_to_list q).*1) as Hkeys
    by apply merge_sort_Permutation.
  assert (parseQuery_pairs ∅ pieces = q) as Hparse.
  { unfold pieces. rewrite parseQuery_keys.
    rewrite (fold_add_values_perm _ (map_to_list q)).
    - by apply fold_add_values_map_to_list.
    - rewrite Hkeys, <- list_fmap_compose.
      assert ((fun k => (k, default [] (q !! k))) ∘ fst <$> map_to_list q
              = map_to_list q) as ->; [|done].
      rewrite <- (list_fmap_id (map_to_list q)) at 2.
      apply Forall_fmap_ext, Forall_forall. intros [k vs] Hin.
      apply elem_of_map_to_list in Hin. cbn. by rewrite Hin.
    - rewrite <- list_fmap_compose.
      assert (fst ∘ (fun k => (k, default [] (q !! k))) <$> keys = keys)
        as ->.
      { rewrite <- (list_fmap_id keys) at 2.
        by apply Forall_fmap_ext, Forall_forall. }
      rewrite Hkeys. apply NoDup_fst_map_to_list. }
  destruct pieces as [|p ps] eqn:Hpieces; [by rewrite <- Hparse|].
  rewrite <- Hpieces, Split_join_pieces; [by rewrite Hpieces| |].
  - by rewrite Hpieces.
  - unfold pieces. apply Forall_concat, Forall_fmap, Forall_forall.
    intros k _. unfold Values_Encode_key.
    apply Forall_fmap, Forall_forall. intros v _.
    by apply (query_pair_without "&" k v).
Qed.

(** X19. [addQueryParams] adds to the query and takes nothing away: in the
    query of the URL it returns, a name that the parameters do not bind (or
    bind to no value) has the values that the query of the given URL had
    for it, and a name that the parameters bind has those values followed
    by the values of the parameters, in their order. This holds for every
    iteration order of the parameter map, for names and values of any
    bytes, and for a query in the given URL of any form. *)
Theorem addQueryParams_adds_values
    (go_range : forall V : Type,
        range_site -> gmap string V -> list (string * V))
    (go_range_perm : forall V site (m : gmap string V),
        go_range V site m ≡ₚ map_to_list m)
    (u : URL) (params : Values) (k : string) :
  URL_Query (addQueryParams go_range u (Some params)) !! k
  = match params !! k with
    | None | Some [] => URL_Query u !! k
    | Some vs => Some (default [] (URL_Query u !! k) ++ vs)%list
    end.
Proof.
  rewrite (addQueryParams_any_order go_range go_range_perm).
  unfold addQueryParams, range_map, range_in_list_order.
  rewrite URL_Query_Split. cbn [RawQuery].
  rewrite parseQuery_Encode
    by apply fold_add_values_nonempty, URL_Query_nonempty.
  destruct (params !! k) as [vs|] eqn:Hk.
  - rewrite (fold_add_values_at _ _ k vs).
    + by destruct vs.
    + apply NoDup_fst_map_to_list.
    + by apply elem_of_map_to_list.
  - apply fold_add_values_other.
    intros Hin. apply list_elem_of_fmap in Hin as [[k' vs] [-> Hin]].
    apply elem_of_map_to_list in Hin. cbn in Hk. congruence.
Qed.

(** ** The names of the log levels *)

(** X20. [Level.String] names the declared levels and nothing else: on any
    integer value, the name returned is the name of a declared level exactly
    when the value is that level, and it is UNKNOWN exactly when the value
    is no declared level. So two different levels never share a name, and
    UNKNOWN is the name of none of them. *)
Theorem Level_String_names_the_levels (z : Z) :
  (forall l, Level_String_at z = Level_String l <-> z = Level_code l)
  /\ (Level_String_at z = "UNKNOWN" <-> forall l, z <> Level_code l).
Proof.
  unfold Level_String_at.
  destruct (Z.eqb_spec z (Level_code DebugLevel)) as [->|H0];
    [|destruct (Z.eqb_spec z (Level_code InfoLevel)) as [->|H1];
      [|destruct (Z.eqb_spec z (Level_code WarnLevel)) as [->|H2];
        [|destruct (Z.eqb_spec z (Level_code ErrorLevel)) as [->|H3]]]].
  1-4: split; [by intros []|];
       split; [done|]; intros Hall; by edestruct Hall.
  split; [|split; [by intros _ []|done]].
  intros l. split; [by destruct l|]. intros ->. by destruct l.
Qed.

(** ** Runs of the further properties *)

(** X7 at a request that has an Accept header, on the default header map:
    the Accept entry is the one the request came with. *)
Lemma header_link_fills_gaps_only_witness :
  let req :=
    mkRequest 0%nat MethodGet empty_URL {["Accept" := ["text/html"]]} None
              "" in
  let req1 :=
    with_sample_defaults (Some {["User-Agent" := defaultUserAgent]}) req in
  same_but_headers req1 req
  /\ req_Header req1 !! CanonicalMIMEHeaderKey "accept"
     = req_Header req !! CanonicalMIMEHeaderKey "accept".
Proof.
  intros req req1.
  destruct (header_link_fills_gaps_only
              range_in_list_order range_in_list_order_perm net_refusing
              sample_dump_request sample_dump_response sample_duration
              None (Some {["User-Agent" := defaultUserAgent]}) req
              empty_world) as (_ & Hsame & Hkept & _).
  split; [exact Hsame|]. apply Hkept. by vm_compute.
Defined.

(** X8 at three defaults that share the canonical name User-Agent: the
    first in the order of the loop has an empty value, so the second one is
    written and the third is not. *)
Lemma first_default_in_range_order_wins_witness :
  let req := mkRequest 0%nat MethodGet empty_URL ∅ None "" in
  let defaults : gmap string string :=
    <["USER-AGENT" := "late"]>
      (<["user-agent" := ""]> {["User-Agent" := "probe/1.0"]}) in
  range_in_list_order _ site_header_defaults defaults
  = [("user-agent", ""); ("User-Agent", "probe/1.0"); ("USER-AGENT", "late")]
  /\ Header_Get (req_Header (with_sample_defaults (Some defaults) req))
                "User-Agent"
     = "probe/1.0".
Proof.
  intros req defaults. split; [vm_compute; reflexivity|].
  apply (first_default_in_range_order_wins
           range_in_list_order (Some defaults) req
           [("user-agent", "")] [("USER-AGENT", "late")]
           "User-Agent" "User-Agent" "probe/1.0").
  - vm_compute; reflexivity.
  - reflexivity.
  - discriminate.
  - intros k0 v0 Hin _. apply list_elem_of_singleton in Hin.
    by injection Hin as _ ->.
  - reflexivity.
Defined.

(** X9 at a transport that answers 404. *)
Lemma do_outcome_is_consistent_witness :
  let c := client_of default_config in
  let r := mkResponse 404 "" ∅ (Some "ok") in
  let e := errors_NewHTTPError (Some r) None "request returned error status" in
  (do_answered 404 c background MethodGet "https://example.com/" None
               empty_world).1
  = Returned (Some r) (Some e)
  /\ 400 <= StatusCode r.
Proof.
  intros c r e.
  assert (do_answered 404 c background MethodGet "https://example.com/" None
                      empty_world
          = (Returned (Some r) (Some e),
             (do_answered 404 c background MethodGet "https://example.com/"
                          None empty_world).2)) as Hdo
    by (vm_compute; reflexivity).
  destruct (do_outcome_is_consistent _ _ _ _ _ _ _ _ _ _ _ _ _ _ Hdo)
    as (_ & Hboth & _).
  split; [by rewrite Hdo|]. by destruct (Hboth r e eq_refl eq_refl).
Defined.

(** X11 at a custom doer that returns two nils. *)
Lemma nil_result_of_custom_doer_panics_witness :
  let silent := CustomDoerOf (fun _ => (None, None)) in
  let c := (New [WithCustomDoer (Some silent)]).1.1 in
  do_refused c background MethodGet "https://example.com/"
             (Some (mkRequestConfig None None None)) empty_world
  = (Panicked, empty_world).
Proof.
  intros silent c.
  destruct (request_of range_in_list_order c background MethodGet
                       "https://example.com/"
                       (mkRequestConfig None None None))
    as [req|] eqn:Hreq; [|by vm_compute in Hreq].
  by apply (nil_result_of_custom_doer_panics
              range_in_list_order net_refusing sample_dump_request
              sample_dump_response sample_duration c background MethodGet
              "https://example.com/" (mkRequestConfig None None None)
              empty_world req (fun _ => (None, None))).
Defined.

(** X13 at an absolute target on the default client. *)
Lemma nil_context_is_refused_witness :
  let c := client_of default_config in
  Client_Get range_in_list_order net_refusing sample_dump_request
             sample_dump_response sample_duration c None
             "https://example.com/" (Some (mkRequestConfig None None None))
             empty_world
  = (Returned None
       (Some (errors_Wrap (err_http "net/http: nil Context")
                          "failed to create request")), empty_world).
Proof.
  intros c.
  destruct (resolveURL_sample c "https://example.com/" None)
    as [u|] eqn:Hu; [|by vm_compute in Hu].
  by destruct (nil_context_is_refused
                 range_in_list_order net_refusing sample_dump_request
                 sample_dump_response sample_duration c
                 "https://example.com/" (mkRequestConfig None None None)
                 empty_world u Hu) as [Hget _].
Defined.


(** X3 at a headers option followed by a timeout option. *)
Lemma later_headers_option_wins_witness :
  configured_header "X-Api"
    (buildConfig
       (option_of <$> [CallWithHeaders (Some {["X-Api" := "1"]});
                       CallWithTimeout 5])).1
  = Some "1".
Proof.
  apply (later_headers_option_wins [] [CallWithTimeout 5]
           {["X-Api" := "1"]} "X-Api" "1").
  - vm_compute; reflexivity.
  - intros H' Hin. by apply list_elem_of_singleton in Hin.
Defined.

(** X16 at one headers option. *)
Lemma configured_headers_come_from_options_witness :
  let calls := [CallWithHeaders (Some {["X-Api" := "1"]})] in
  ("X-Api" = "User-Agent" /\ "1" = defaultUserAgent)
  \/ exists H : gmap string string,
       CallWithHeaders (Some H) ∈ calls /\ H !! "X-Api" = Some "1".
Proof.
  intros calls. apply configured_headers_come_from_options.
  vm_compute; reflexivity.
Defined.

(** X17 at a slashless target on the base URL https://example.com/api. *)
Lemma relative_target_stays_on_base_host_witness :
  let c := (New [WithBaseURL "https://example.com/api"]).1.1 in
  exists u,
    resolveURL_sample c "v2/users" None = inl u
    /\ Scheme u = "https" /\ Host u = "example.com".
Proof.
  intros c.
  destruct (relative_target_stays_on_base_host
              range_in_list_order c
              (mkURL "https" "" None "example.com" "/api" "" false false
                     "" "" "")
              (mkURL "" "" None "" "v2/users" "" false false "" "" "")
              "v2/users" None) as (u & Hu & Hs & _ & Hh);
    try (vm_compute; reflexivity).
  by exists u.
Defined.

(** X18 at the target /users on the base URL https://example.com/api. *)
Lemma rooted_target_drops_base_path_witness :
  let c := (New [WithBaseURL "https://example.com/api"]).1.1 in
  exists u,
    resolveURL_sample c "/users" None = inl u
    /\ Path u = "/users" /\ Host u = "example.com".
Proof.
  intros c.
  destruct (rooted_target_drops_base_path
              range_in_list_order c
              (mkURL "https" "" None "example.com" "/api" "" false false
                     "" "" "")
              (mkURL "" "" None "" "/users" "" false false "" "" "")
              "/users" None) as (u & Hu & Hp & _ & Hh);
    try (vm_compute; reflexivity); [discriminate|].
  by exists u.
Defined.

(** X19 at a URL whose query has a page already. *)
Lemma addQueryParams_adds_values_witness :
  let u :=
    mkURL "https" "" None "example.com" "/users" "" false false "page=1"
          "" "" in
  URL_Query
    (addQueryParams range_in_list_order u (Some {["page" := ["2"]]}))
    !! "page"
  = Some ["1"; "2"].
Proof.
  intros u.
  rewrite (addQueryParams_adds_values
             range_in_list_order range_in_list_order_perm).
  vm_compute; reflexivity.
Defined.
